(** * KasagiEngine: the delta engine and the room state

    A shallow embedding of [server/rooms/delta-engine.ts] and
    [server/rooms/room-state.ts], and the properties of the
    synchronisation core proved over it.

    Modelling conventions.
    - A JavaScript object used as a dictionary ([Record<string, T>]) is a
      plain object, as [{}], [JSON.parse] and the decoder create it: the
      [gmap string T] of its own properties, with [Object.prototype] as its
      prototype.  [JS.get], [JS.has_property] and [JS.assign] are the
      property read, the [in] operator and the assignment on such an
      object: a read and [in] find the members of [Object.prototype] under
      the names that are no own property, and an assignment to [__proto__]
      goes to the accessor of [Object.prototype], which replaces the
      prototype and adds no own property.  Two maps are equal when they
      hold the same own entries, which is the deep equality of the
      specification.
    - The built-in objects are those Node starts with.  What a call writes
      on a built-in object (through an entity id that resolves to a member
      of [Object.prototype]) is no part of a room and is not recorded, nor
      is the prototype that an assignment to [__proto__] puts in place; a
      call that a built-in object makes throw (an assignment it refuses in
      strict mode, a read of [caller] or [arguments] of a function) has no
      model.  The properties that depend on either are stated for names
      that [Object.prototype] does not hold.
    - The values of the fields are JSON values.  A nested object keeps the
      order of its keys, which is what [JSON.stringify] prints.
    - What a [gmap] forgets about a JavaScript object (the identity of the
      arrays and objects it holds, which decides [===], and the order of its
      own keys) is supplied to the diff by a [js_view].
    - JavaScript numbers are binary64 floating-point numbers.  [seq], [tick]
      and the clock are integers [Z]; every integer up to [2^53] in
      magnitude is such a number, and [JS.increment], [JS.subtract] and
      [JS.round] give what [x++], [a - b] and a conversion compute on the
      integers beyond.
    - [Date.now()] is an argument [now] of the operation that reads it.
    - The sockets of a room and the coordinator are an output log of the
      messages handed to them.  A promise that is not awaited runs up to its
      first [await] within the call; what follows the [await] is a call of
      its own. *)

From Stdlib Require Import ZArith NArith String Ascii List.
From Stdlib.Strings Require Import Byte.
From stdpp Require Import base gmap strings list fin_maps option.

Local Open Scope string_scope.
Local Open Scope list_scope.
Local Open Scope Z_scope.

(** ** JSON values: the [unknown] field values of an entity *)

#[warnings="-register-all"]
Inductive value : Type :=
  | VNull
  | VBool (b : bool)
  | VNum (n : Z)
  | VStr (s : string)
  | VArr (items : list value)
  | VObj (props : list (string * value)).

(** Structural comparison of two JSON values. *)
Fixpoint value_eqb (a b : value) {struct a} : bool :=
  match a, b with
  | VNull, VNull => true
  | VBool p, VBool q => Bool.eqb p q
  | VNum n, VNum m => Z.eqb n m
  | VStr s, VStr t => String.eqb s t
  | VArr l, VArr r =>
      (fix items_eqb (l r : list value) {struct l} : bool :=
         match l, r with
         | [], [] => true
         | x :: l', y :: r' => value_eqb x y && items_eqb l' r'
         | _, _ => false
         end) l r
  | VObj l, VObj r =>
      (fix props_eqb (l r : list (string * value)) {struct l} : bool :=
         match l, r with
         | [], [] => true
         | (k, x) :: l', (j, y) :: r' =>
             String.eqb k j && value_eqb x y && props_eqb l' r'
         | _, _ => false
         end) l r
  | _, _ => false
  end.

(** [v === null] *)
Definition is_null (v : value) : bool :=
  match v with
  | VNull => true
  | _ => false
  end.

Section value_induction.
Variable P : value → Prop.
Hypothesis Hnull : P VNull.
Hypothesis Hbool : ∀ b, P (VBool b).
Hypothesis Hnum : ∀ n, P (VNum n).
Hypothesis Hstr : ∀ s, P (VStr s).
Hypothesis Harr : ∀ l, Forall P l → P (VArr l).
Hypothesis Hobj : ∀ l, Forall (λ kv, P kv.2) l → P (VObj l).

Fixpoint value_nested_ind (v : value) : P v :=
  match v with
  | VNull => Hnull
  | VBool b => Hbool b
  | VNum n => Hnum n
  | VStr s => Hstr s
  | VArr l =>
      Harr l ((fix go (l : list value) : Forall P l :=
                 match l with
                 | [] => Forall_nil_2 P
                 | x :: l' => Forall_cons_2 P x l' (value_nested_ind x) (go l')
                 end) l)
  | VObj l =>
      Hobj l ((fix go (l : list (string * value)) : Forall (λ kv, P kv.2) l :=
                 match l with
                 | [] => Forall_nil_2 _
                 | kv :: l' =>
                     Forall_cons_2 (λ kv, P kv.2) kv l' (value_nested_ind kv.2) (go l')
                 end) l)
  end.
End value_induction.

#[global] Instance value_eq_dec : EqDecision value.
Proof.
  assert (Heqb : ∀ a b, value_eqb a b = true ↔ a = b).
  { intros a. induction a as [| p | n | s | l IH | l IH] using value_nested_ind;
      intros [| q | m | t | r | r]; simpl; try (split; [discriminate | congruence]);
      try (split; [done | done]).
    - rewrite Bool.eqb_true_iff. split; congruence.
    - rewrite Z.eqb_eq. split; congruence.
    - rewrite String.eqb_eq. split; congruence.
    - revert r. induction IH as [| x l Hx _ IHl]; intros [| y r]; simpl;
        try (split; [discriminate | congruence]); [done |].
      rewrite andb_true_iff, Hx. specialize (IHl r). split.
      + intros [-> Hlr]. apply IHl in Hlr. congruence.
      + intros [= -> ->]. split; [done |]. by apply IHl.
    - revert r. induction IH as [| [k x] l Hx _ IHl]; intros [| [j y] r]; simpl;
        try (split; [discriminate | congruence]); [done |].
      rewrite !andb_true_iff, String.eqb_eq. simpl in Hx. rewrite Hx.
      specialize (IHl r). split.
      + intros [[-> ->] Hlr]. apply IHl in Hlr. congruence.
      + intros [= -> -> ->]. split; [done |]. by apply IHl. }
  intros a b. destruct (value_eqb a b) eqn:E.
  - left. by apply Heqb.
  - right. intros H. apply Heqb in H. congruence.
Defined.

(** Closed, decidable goals are settled by evaluation. *)
Ltac by_compute :=
  match goal with
  | |- ?P => apply (bool_decide_unpack P); vm_compute; exact I
  end.

(** ** JavaScript: numbers and plain objects *)

Module JS.

(** *** Numbers *)

(** Every integer up to [2^53] in magnitude is a binary64 number. *)
Definition limit : Z := 2 ^ 53.

(** The binary64 number nearest to the integer [x], the one with the even
    significand of two that are as near: beyond [2^53] the numbers are the
    multiples of [ulp], a power of two, with 53-bit quotients. *)
Definition round (x : Z) : Z :=
  let a := Z.abs x in
  if a <=? limit then x
  else
    let ulp := 2 ^ (Z.log2 a - 52) in
    let q := a / ulp in
    let r := a mod ulp in
    let q' := if 2 * r <? ulp then q
              else if ulp <? 2 * r then q + 1
              else if Z.even q then q else q + 1 in
    Z.sgn x * (q' * ulp).

(** [x++] and [++x] on a number [x]: [x + 1] as long as that is within
    [2^53]; between [2^53] and [2^54] the numbers are the even integers,
    [x + 1] is half way between two of them and the one with the even
    significand is taken; from [2^54] on, [x + 1] rounds back to [x]. *)
Definition increment (x : Z) : Z :=
  if Z.abs (x + 1) <=? limit then x + 1
  else if Z.abs x <? 2 * limit then (if Z.even (x / 2) then x else x + 2)
  else x.

(** [a - b] *)
Definition subtract (a b : Z) : Z := round (a - b).

(** An integer that is a number, as each one is up to [2^53]. *)
Definition exact (x : Z) : Prop := Z.abs x ≤ limit.

#[global] Instance exact_dec (x : Z) : Decision (exact x).
Proof. unfold exact. apply _. Defined.

(** *** Plain objects *)

(** The properties of [Object.prototype] in Node, which every plain object
    inherits: the constructor, ten methods, and the accessor [__proto__]. *)
Definition Object_prototype : list string :=
  ["constructor"; "__defineGetter__"; "__defineSetter__"; "hasOwnProperty";
   "__lookupGetter__"; "__lookupSetter__"; "isPrototypeOf";
   "propertyIsEnumerable"; "toString"; "valueOf"; "__proto__";
   "toLocaleString"].

Definition inherited (key : string) : bool :=
  bool_decide (key ∈ Object_prototype).

(** What a read [obj[key]] of an entity map returns when it is not
    [undefined]: the entity that is the own property [key], or else the
    member [name] of [Object.prototype]: a function, and for [__proto__]
    the prototype object itself.  Both are truthy. *)
Inductive object : Type :=
  | Plain (fields : gmap string value)
  | Member (name : string).

(** [obj[key]]; [None] is [undefined]. *)
Definition get (key : string) (obj : gmap string (gmap string value))
    : option object :=
  match obj !! key with
  | Some fields => Some (Plain fields)
  | None => if inherited key then Some (Member key) else None
  end.

(** [key in obj] *)
Definition has_property {A} (key : string) (obj : gmap string A) : bool :=
  match obj !! key with
  | Some _ => true
  | None => inherited key
  end.

(** [obj[key] = a].  An own property is updated.  Without one, the name
    [__proto__] finds the setter of [Object.prototype], which replaces the
    prototype of [obj] by [a] when [a] is an object or [null] and does
    nothing otherwise, so that the own properties stay as they are; every
    other name becomes an own property (the members of [Object.prototype]
    are writable). *)
Definition assign {A} (key : string) (a : A) (obj : gmap string A)
    : gmap string A :=
  match obj !! key with
  | Some _ => <[key := a]> obj
  | None => if String.eqb key "__proto__" then obj else <[key := a]> obj
  end.

(** The number of parameters of a method of [Object.prototype], and its
    name: the [length] and the [name] of the function. *)
Definition member_length (name : string) : Z :=
  if bool_decide (name ∈ ["__defineGetter__"; "__defineSetter__"]) then 2
  else if bool_decide (name ∈ ["toString"; "valueOf"; "toLocaleString"]) then 0
  else 1.

Definition member_name (name : string) : string :=
  if String.eqb name "constructor" then "Object" else name.

(** [Object.prototype[name][field]] where it is a JSON value: the prototype
    of [Object.prototype] is [null], and a function has a [length] and a
    [name]; every other property of a member is a function, an object or
    [undefined]. *)
Definition member_field (name field : string) : option value :=
  if String.eqb name "__proto__"
  then (if String.eqb field "__proto__" then Some VNull else None)
  else if String.eqb field "length" then Some (VNum (member_length name))
  else if String.eqb field "name" then Some (VStr (member_name name))
  else None.

(** [o[field]] where it is a JSON value.  On an entity it is the own
    property: what an entity inherits is no JSON value. *)
Definition field (o : object) (f : string) : option value :=
  match o with
  | Plain fields => fields !! f
  | Member name => member_field name f
  end.

(** The enumerable own properties: [Object.keys(o)], and what [{...o}]
    copies.  A member of [Object.prototype] has none. *)
Definition own (o : object) : gmap string value :=
  match o with
  | Plain fields => fields
  | Member _ => ∅
  end.

(** [{...o}], where [o] may be [undefined]. *)
Definition spread (o : option object) : gmap string value :=
  from_option own ∅ o.

(** No own name of [obj] is a name of [Object.prototype]. *)
Definition ordinary {A} (obj : gmap string A) : Prop :=
  map_Forall (λ key _, inherited key = false) obj.

#[global] Instance ordinary_dec {A} (obj : gmap string A) : Decision (ordinary obj).
Proof. unfold ordinary. apply _. Defined.

(** [JSON.stringify(o) === JSON.stringify(fields)] for a member [o] of
    [Object.prototype]: a function prints as [undefined], and the
    prototype object as an object without properties. *)
Definition member_same_json (name : string) (fields : gmap string value) : bool :=
  String.eqb name "__proto__" && bool_decide (fields = ∅).

End JS.

(** ** Process configuration ([config/env.ts]) *)

Module Env.
Record config : Type := {
  instanceId : string;
  snapshotInterval : Z;
}.
End Env.

(** ** Node's [Buffer]: the base64 conversions *)

Module Buffer.
Local Open Scope N_scope.

(** The base64 alphabet of RFC 4648. *)
Definition alphabet : string :=
  "ABCDEFGHIJKLMNOPQRSTUVWXYZabcdefghijklmnopqrstuvwxyz0123456789+/".

Definition sextet_to_char (n : N) : ascii :=
  match String.get (N.to_nat n) alphabet with
  | Some c => c
  | None => "="%char
  end.

(** The decoder also reads the URL-safe characters [-] and [_]. *)
Definition char_to_sextet (c : ascii) : option N :=
  let code := N_of_ascii c in
  if (65 <=? code) && (code <=? 90) then Some (code - 65)
  else if (97 <=? code) && (code <=? 122) then Some (code - 97 + 26)
  else if (48 <=? code) && (code <=? 57) then Some (code - 48 + 52)
  else if (code =? 43) || (code =? 45) then Some 62
  else if (code =? 47) || (code =? 95) then Some 63
  else None.

Definition byte_of_N (n : N) : byte :=
  match Byte.of_N (n mod 256) with
  | Some b => b
  | None => Byte.x00
  end.

(** [buffer.toString('base64')] *)
Fixpoint toString_base64 (bytes : list byte) : string :=
  match bytes with
  | [] => EmptyString
  | [b1] =>
      let n1 := Byte.to_N b1 in
      String (sextet_to_char (n1 / 4))
        (String (sextet_to_char (n1 mod 4 * 16)) "==")
  | [b1; b2] =>
      let n1 := Byte.to_N b1 in
      let n2 := Byte.to_N b2 in
      String (sextet_to_char (n1 / 4))
        (String (sextet_to_char (n1 mod 4 * 16 + n2 / 16))
           (String (sextet_to_char (n2 mod 16 * 4)) "="))
  | b1 :: b2 :: b3 :: rest =>
      let n1 := Byte.to_N b1 in
      let n2 := Byte.to_N b2 in
      let n3 := Byte.to_N b3 in
      String (sextet_to_char (n1 / 4))
        (String (sextet_to_char (n1 mod 4 * 16 + n2 / 16))
           (String (sextet_to_char (n2 mod 16 * 4 + n3 / 64))
              (String (sextet_to_char (n3 mod 64)) (toString_base64 rest))))
  end.

(** The decoder skips the characters outside the alphabet and stops at the
    padding. *)
Fixpoint sextets (s : string) : list N :=
  match s with
  | EmptyString => []
  | String c rest =>
      if Ascii.eqb c "=" then []
      else match char_to_sextet c with
           | Some n => n :: sextets rest
           | None => sextets rest
           end
  end.

Fixpoint bytes_of_sextets (l : list N) : list byte :=
  match l with
  | s1 :: s2 :: s3 :: s4 :: rest =>
      byte_of_N (s1 * 4 + s2 / 16)
        :: byte_of_N (s2 mod 16 * 16 + s3 / 4)
        :: byte_of_N (s3 mod 4 * 64 + s4)
        :: bytes_of_sextets rest
  | [s1; s2; s3] =>
      [byte_of_N (s1 * 4 + s2 / 16); byte_of_N (s2 mod 16 * 16 + s3 / 4)]
  | [s1; s2] => [byte_of_N (s1 * 4 + s2 / 16)]
  | _ => []
  end.

(** [Buffer.from(s, 'base64')] *)
Definition from_base64 (s : string) : list byte := bytes_of_sextets (sextets s).

End Buffer.

(** ** delta-engine.ts *)

Module DeltaEngine.

(** [EntityDelta]: an entity id is mapped to [null] ([None]) or to a map of
    changed fields, where a field mapped to [VNull] is a removed field. *)
Record FullDelta : Type := {
  roomId : string;
  delta : gmap string (option (gmap string value));
  tick : Z;
  seq : Z;
  ts : Z;
  instanceId : string;
}.

#[global] Instance FullDelta_eq_dec : EqDecision FullDelta.
Proof. solve_decision. Defined.

(** What the diff observes of its two arguments beyond their entries.
    [same_ref e f] tells that [prev[e][f]] and [next[e][f]] are one and the
    same array or object; [same_json e] tells that [prev[e]] and [next[e]]
    print to the same JSON text (same entries in the same key order). *)
Record js_view : Type := {
  same_ref : string → string → bool;
  same_json : string → bool;
}.

(** [a === b] for the values of field [f] of entity [e]. *)
Definition strict_eq (view : js_view) (e f : string) (a b : value) : bool :=
  match a, b with
  | VNull, VNull => true
  | VBool p, VBool q => Bool.eqb p q
  | VNum n, VNum m => Z.eqb n m
  | VStr s, VStr t => String.eqb s t
  | VArr _, VArr _ | VObj _, VObj _ => same_ref view e f
  | _, _ => false
  end.

(** [prevEntity[field] !== nextValue], where [prevValue] is what the read
    holds as a JSON value; a field that is missing reads [undefined], or a
    member of [Object.prototype], which differ from every JSON value. *)
Definition strict_neq (view : js_view) (e f : string)
    (prevValue : option value) (nextValue : value) : bool :=
  match prevValue with
  | None => true
  | Some a => negb (strict_eq view e f a nextValue)
  end.

(** [JSON.stringify(prevEntity) === JSON.stringify(nextEntity)] *)
Definition same_text (view : js_view) (entityId : string)
    (prevEntity : JS.object) (nextEntity : gmap string value) : bool :=
  match prevEntity with
  | JS.Plain _ => same_json view entityId
  | JS.Member name => JS.member_same_json name nextEntity
  end.

(** The field-level diff of one entity: the two inner loops of
    [computeEntityDelta]. *)
Definition computeFieldDelta (view : js_view) (entityId : string)
    (prevEntity : JS.object) (nextEntity : gmap string value)
    : gmap string value :=
  let fieldDelta :=
    map_fold (λ field nextValue fieldDelta,
                if strict_neq view entityId field (JS.field prevEntity field)
                     nextValue
                then JS.assign field nextValue fieldDelta
                else fieldDelta)
             ∅ nextEntity in
  map_fold (λ field _ fieldDelta,
              if negb (JS.has_property field nextEntity)
              then JS.assign field VNull fieldDelta
              else fieldDelta)
           fieldDelta (JS.own prevEntity).

Definition computeEntityDelta (view : js_view)
    (prev next : gmap string (gmap string value))
    : gmap string (option (gmap string value)) :=
  let delta :=
    map_fold (λ entityId nextEntity delta,
                match JS.get entityId prev with
                | None => JS.assign entityId (Some nextEntity) delta
                | Some prevEntity =>
                    if negb (same_text view entityId prevEntity nextEntity) then
                      let fieldDelta :=
                        computeFieldDelta view entityId prevEntity nextEntity in
                      if (0 <? size fieldDelta)%nat
                      then JS.assign entityId (Some fieldDelta) delta
                      else delta
                    else delta
                end)
             ∅ next in
  map_fold (λ entityId _ delta,
              if negb (JS.has_property entityId next)
              then JS.assign entityId None delta
              else delta)
           delta prev.

Definition createDeltaPayload (config : Env.config) (now : Z)
    (roomId : string) (delta : gmap string (option (gmap string value)))
    (tick seq : Z) : FullDelta :=
  {| roomId := roomId;
     delta := delta;
     tick := tick;
     seq := seq;
     ts := now;
     instanceId := Env.instanceId config |}.

Definition shouldApplyRemoteDelta (config : Env.config)
    (remoteDelta : FullDelta) (localSeq : Z) : bool :=
  if String.eqb (instanceId remoteDelta) (Env.instanceId config) then false
  else if seq remoteDelta <=? localSeq then false
  else true.

(** The inner loop of [applyDeltaToEntities] over the changes of one
    existing entity. *)
Definition applyFieldChanges (entity changes : gmap string value)
    : gmap string value :=
  map_fold (λ field value entity,
              if is_null value then delete field entity
              else JS.assign field value entity)
           entity changes.

(** Where [entities[entityId]] is a member of [Object.prototype], the
    changes are written on that member, and the entities stay. *)
Definition applyDeltaToEntities (entities : gmap string (gmap string value))
    (delta : gmap string (option (gmap string value)))
    : gmap string (gmap string value) :=
  map_fold (λ entityId changes entities,
              match changes with
              | None => delete entityId entities
              | Some changes =>
                  match JS.get entityId entities with
                  | None => JS.assign entityId changes entities
                  | Some (JS.Plain entity) =>
                      <[entityId := applyFieldChanges entity changes]> entities
                  | Some (JS.Member _) => entities
                  end
              end)
           entities delta.

Definition isDeltaEmpty (delta : gmap string (option (gmap string value))) : bool :=
  (size delta =? 0)%nat.

(** The view of a diff against a [cloneState()] copy: the copy shares no
    array or object with the live state, and it prints every entity it
    kept unchanged with the keys in the same order. *)
Definition cloned_view (prev next : gmap string (gmap string value)) : js_view :=
  {| same_ref := λ _ _, false;
     same_json := λ entityId, bool_decide (prev !! entityId = next !! entityId) |}.

(** [msgpack.encode] and [msgpack.decode] of the msgpack-lite package, which
    the engine imports: the codec is a parameter of the functions that call
    it.  A decoder that throws returns [None]. *)
Section codec.
Variable msgpack_encode : FullDelta → list byte.
Variable msgpack_decode : list byte → option FullDelta.

Definition encodeDelta (delta : FullDelta) : list byte := msgpack_encode delta.

Definition decodeDelta (encoded : list byte + string) : option FullDelta :=
  match encoded with
  | inr base64 => msgpack_decode (Buffer.from_base64 base64)
  | inl bytes => msgpack_decode bytes
  end.

Definition encodeDeltaToBase64 (delta : FullDelta) : string :=
  let buffer := encodeDelta delta in
  Buffer.toString_base64 buffer.

Definition decodeDeltaFromBase64 (base64 : string) : option FullDelta :=
  let buffer := Buffer.from_base64 base64 in
  msgpack_decode buffer.
End codec.

(** A view is sound for [prev] and [next] when it only reports what holds of
    them: entities that print alike are equal, and one shared object is one
    value. *)
Definition view_sound (view : js_view)
    (prev next : gmap string (gmap string value)) : Prop :=
  (∀ e prevEntity nextEntity,
     prev !! e = Some prevEntity → next !! e = Some nextEntity →
     same_json view e = true → prevEntity = nextEntity) ∧
  (∀ e f prevEntity nextEntity a b,
     prev !! e = Some prevEntity → next !! e = Some nextEntity →
     prevEntity !! f = Some a → nextEntity !! f = Some b →
     same_ref view e f = true → a = b).

(** No entity id and no field name of [entities] is a name of
    [Object.prototype]. *)
Definition ordinary_names (entities : gmap string (gmap string value)) : Prop :=
  JS.ordinary entities ∧ map_Forall (λ _ entity, JS.ordinary entity) entities.

#[global] Instance ordinary_names_dec (entities : gmap string (gmap string value)) :
  Decision (ordinary_names entities).
Proof. unfold ordinary_names. apply _. Defined.

(** No field of an entity kept from [prev] to [next] becomes [null]: where
    [next] holds [null], [prev] holds [null] already. *)
Definition null_safe (prev next : gmap string (gmap string value)) : Prop :=
  ∀ e prevEntity nextEntity f,
    prev !! e = Some prevEntity → next !! e = Some nextEntity →
    nextEntity !! f = Some VNull → prevEntity !! f = Some VNull.

End DeltaEngine.

(** ** A codec instance

    A codec in the MessagePack wire format for deltas whose field values
    are scalars (nil, booleans, unsigned integers below [2^32], strings of
    fewer than 256 bytes) in maps of fewer than [2^16] entries.  It stands
    in for msgpack-lite where an instance of the codec is needed; what it
    does not cover it encodes as the unused byte [0xc1], which no decoder
    reads. *)

Module MsgpackSample.
Local Open Scope N_scope.

Definition octet (n : N) : Byte.byte := Buffer.byte_of_N n.

(** Big-endian bytes of an unsigned integer, [width] of them. *)
Fixpoint be_bytes (width : nat) (n : N) : list Byte.byte :=
  match width with
  | O => []
  | S w => be_bytes w (n / 256) ++ [octet n]
  end.

Definition be_value (bytes : list Byte.byte) : N :=
  foldl (λ acc b, acc * 256 + Byte.to_N b) 0 bytes.

Definition unsupported : list Byte.byte := [octet 193].

Definition encode_str (s : string) : list Byte.byte :=
  let bytes := list_byte_of_string s in
  let n := N.of_nat (length bytes) in
  if n <? 32 then octet (160 + n) :: bytes
  else if n <? 256 then octet 217 :: octet n :: bytes
  else unsupported.

Definition encode_uint (n : N) : list Byte.byte :=
  if n <? 128 then [octet n]
  else if n <? 256 then octet 204 :: be_bytes 1 n
  else if n <? 65536 then octet 205 :: be_bytes 2 n
  else if n <? 4294967296 then octet 206 :: be_bytes 4 n
  else unsupported.

Definition encode_number (n : Z) : list Byte.byte :=
  if (0 <=? n)%Z then encode_uint (Z.to_N n) else unsupported.

Definition encode_value (v : value) : list Byte.byte :=
  match v with
  | VNull => [octet 192]
  | VBool false => [octet 194]
  | VBool true => [octet 195]
  | VNum n => encode_number n
  | VStr s => encode_str s
  | VArr _ | VObj _ => unsupported
  end.

Definition encode_map {A} (encode_entry : A → list Byte.byte)
    (m : gmap string A) : list Byte.byte :=
  let n := N.of_nat (size m) in
  let header :=
    if n <? 16 then [octet (128 + n)]
    else if n <? 65536 then octet 222 :: be_bytes 2 n
    else unsupported in
  header ++ concat ((λ kv, encode_str kv.1 ++ encode_entry kv.2) <$> map_to_list m).

Definition encode_change (change : option (gmap string value)) : list Byte.byte :=
  match change with
  | None => [octet 192]
  | Some fields => encode_map encode_value fields
  end.

Definition encode (fd : DeltaEngine.FullDelta) : list Byte.byte :=
  octet 134
    :: encode_str "roomId" ++ encode_str (DeltaEngine.roomId fd)
    ++ encode_str "delta" ++ encode_map encode_change (DeltaEngine.delta fd)
    ++ encode_str "tick" ++ encode_number (DeltaEngine.tick fd)
    ++ encode_str "seq" ++ encode_number (DeltaEngine.seq fd)
    ++ encode_str "ts" ++ encode_number (DeltaEngine.ts fd)
    ++ encode_str "instanceId" ++ encode_str (DeltaEngine.instanceId fd).

(** A parser reads a value off the front of the buffer. *)
Definition parser (A : Type) : Type := list Byte.byte → option (A * list Byte.byte).

Definition take_bytes (n : N) : parser (list Byte.byte) :=
  λ bytes,
    if N.of_nat (length bytes) <? n then None
    else Some (take (N.to_nat n) bytes, drop (N.to_nat n) bytes).

Definition decode_sized {A} (n : N) (f : list Byte.byte → A) : parser A :=
  λ bytes, prod_map f id <$> take_bytes n bytes.

Definition decode_str : parser string :=
  λ bytes,
    match bytes with
    | tag :: rest =>
        let t := Byte.to_N tag in
        if (160 <=? t) && (t <? 192)
        then decode_sized (t - 160) string_of_list_byte rest
        else if t =? 217 then
          match rest with
          | len :: rest' => decode_sized (Byte.to_N len) string_of_list_byte rest'
          | [] => None
          end
        else None
    | [] => None
    end.

Definition decode_number : parser Z :=
  λ bytes,
    match bytes with
    | tag :: rest =>
        let t := Byte.to_N tag in
        if t <? 128 then Some (Z.of_N t, rest)
        else if t =? 204 then decode_sized 1 (λ b, Z.of_N (be_value b)) rest
        else if t =? 205 then decode_sized 2 (λ b, Z.of_N (be_value b)) rest
        else if t =? 206 then decode_sized 4 (λ b, Z.of_N (be_value b)) rest
        else None
    | [] => None
    end.

Definition decode_value : parser value :=
  λ bytes,
    match bytes with
    | tag :: rest =>
        let t := Byte.to_N tag in
        if t =? 192 then Some (VNull, rest)
        else if t =? 194 then Some (VBool false, rest)
        else if t =? 195 then Some (VBool true, rest)
        else if (160 <=? t) && (t <? 192) || (t =? 217)
        then prod_map VStr id <$> decode_str bytes
        else prod_map VNum id <$> decode_number bytes
    | [] => None
    end.

Fixpoint decode_entries {A} (decode_entry : parser A) (count : nat)
    : parser (list (string * A)) :=
  λ bytes,
    match count with
    | O => Some ([], bytes)
    | S count' =>
        '(key, rest) ← decode_str bytes;
        '(entry, rest) ← decode_entry rest;
        '(entries, rest) ← decode_entries decode_entry count' rest;
        Some ((key, entry) :: entries, rest)
    end.

Definition decode_map {A} (decode_entry : parser A) : parser (gmap string A) :=
  λ bytes,
    match bytes with
    | tag :: rest =>
        let t := Byte.to_N tag in
        '(count, rest) ←
          (if (128 <=? t) && (t <? 144) then Some (t - 128, rest)
           else if t =? 222 then decode_sized 2 be_value rest
           else None);
        prod_map list_to_map id <$> decode_entries decode_entry (N.to_nat count) rest
    | [] => None
    end.

Definition decode_change : parser (option (gmap string value)) :=
  λ bytes,
    match bytes with
    | tag :: rest =>
        if Byte.to_N tag =? 192 then Some (None, rest)
        else prod_map Some id <$> decode_map decode_value bytes
    | [] => None
    end.

(** Reads the string [key], as the key of the next entry. *)
Definition expect_key (key : string) : parser unit :=
  λ bytes,
    '(k, rest) ← decode_str bytes;
    if String.eqb k key then Some (tt, rest) else None.

Definition decode (bytes : list Byte.byte) : option DeltaEngine.FullDelta :=
  match bytes with
  | tag :: rest =>
      if Byte.to_N tag =? 134 then
        '(_, rest) ← expect_key "roomId" rest;
        '(roomId, rest) ← decode_str rest;
        '(_, rest) ← expect_key "delta" rest;
        '(delta, rest) ← decode_map decode_change rest;
        '(_, rest) ← expect_key "tick" rest;
        '(tick, rest) ← decode_number rest;
        '(_, rest) ← expect_key "seq" rest;
        '(seq, rest) ← decode_number rest;
        '(_, rest) ← expect_key "ts" rest;
        '(ts, rest) ← decode_number rest;
        '(_, rest) ← expect_key "instanceId" rest;
        '(instanceId, rest) ← decode_str rest;
        match rest with
        | [] => Some {| DeltaEngine.roomId := roomId; DeltaEngine.delta := delta;
                        DeltaEngine.tick := tick; DeltaEngine.seq := seq;
                        DeltaEngine.ts := ts; DeltaEngine.instanceId := instanceId |}
        | _ => None
        end
      else None
  | [] => None
  end.

End MsgpackSample.

(** ** room-state.ts *)

Module Room.

Record RoomStateData : Type := {
  entities : gmap string (gmap string value);
  tick : Z;
  seq : Z;
}.

Record PlayerInput : Type := {
  playerId : string;
  payload : gmap string value;
  timestamp : option Z;
}.

(** The part of a [KasagiSocket] the room reads. *)
Record KasagiSocket : Type := {
  socketId : nat;
  socketPlayerId : option string;
}.

(** The [{type: 'delta', ...}] message built by [broadcastDelta]. *)
Record DeltaMessage : Type := {
  msgRoomId : string;
  msgTick : Z;
  msgSeq : Z;
  msgDelta : gmap string (option (gmap string value));
  msgTimestamp : Z;
}.

(** What a room hands to the outside, in the order it does so. *)
Inductive effect : Type :=
  | Broadcast (message : DeltaMessage)
      (* [msgpack.encode(message)] is sent to the open clients *)
  | Publish (fullDelta : DeltaEngine.FullDelta)
      (* [publishDelta(roomId, encodeDeltaToBase64(fullDelta))] *)
  | SaveSnapshot (data : gmap string (gmap string value)) (snapSeq snapTick : Z).
      (* [saveRoomSnapshot(roomId, JSON.stringify({entities}), seq, tick)] *)

Record RoomState : Type := {
  roomId : string;
  state : RoomStateData;
  previousState : RoomStateData;
  clients : gset nat;
  lastSnapshotTick : Z;
  isApplyingRemoteDelta : bool;
  sent : list effect;
}.

Definition with_state (st : RoomStateData) (r : RoomState) : RoomState :=
  {| roomId := roomId r; state := st; previousState := previousState r;
     clients := clients r; lastSnapshotTick := lastSnapshotTick r;
     isApplyingRemoteDelta := isApplyingRemoteDelta r; sent := sent r |}.

Definition with_previousState (st : RoomStateData) (r : RoomState) : RoomState :=
  {| roomId := roomId r; state := state r; previousState := st;
     clients := clients r; lastSnapshotTick := lastSnapshotTick r;
     isApplyingRemoteDelta := isApplyingRemoteDelta r; sent := sent r |}.

Definition with_clients (cs : gset nat) (r : RoomState) : RoomState :=
  {| roomId := roomId r; state := state r; previousState := previousState r;
     clients := cs; lastSnapshotTick := lastSnapshotTick r;
     isApplyingRemoteDelta := isApplyingRemoteDelta r; sent := sent r |}.

Definition with_isApplyingRemoteDelta (b : bool) (r : RoomState) : RoomState :=
  {| roomId := roomId r; state := state r; previousState := previousState r;
     clients := clients r; lastSnapshotTick := lastSnapshotTick r;
     isApplyingRemoteDelta := b; sent := sent r |}.

Definition emit (e : effect) (r : RoomState) : RoomState :=
  {| roomId := roomId r; state := state r; previousState := previousState r;
     clients := clients r; lastSnapshotTick := lastSnapshotTick r;
     isApplyingRemoteDelta := isApplyingRemoteDelta r; sent := sent r ++ [e] |}.

(** [new RoomState(roomId, initialState?)] *)
Definition new (roomId : string) (initialState : option RoomStateData) : RoomState :=
  let st := default {| entities := ∅; tick := 0; seq := 0 |} initialState in
  {| roomId := roomId; state := st; previousState := st; clients := ∅;
     lastSnapshotTick := tick st; isApplyingRemoteDelta := false; sent := [] |}.

(** [JSON.parse(JSON.stringify(this.state))]: a copy with the same entries. *)
Definition cloneState (r : RoomState) : RoomStateData := state r.

Definition addClient (r : RoomState) (socket : KasagiSocket) : RoomState :=
  with_clients ({[socketId socket]} ∪ clients r) r.


Definition incrementTick (r : RoomState) : RoomState * Z :=
  let st := state r in
  let st' :=
    {| entities := entities st; tick := JS.increment (tick st); seq := seq st |} in
  (with_state st' r, tick st').

Section operations.
Variable config : Env.config.
(** The reading of [Date.now()] during the call. *)
Variable now : Z.

(** [saveSnapshot] up to its [await]: the call of [saveRoomSnapshot]. *)
Definition saveSnapshot (r : RoomState) : RoomState :=
  emit (SaveSnapshot (entities (state r)) (seq (state r)) (tick (state r))) r.

(** [saveSnapshot] after its [await], once the coordinator has answered:
    [lastSnapshotTick] takes the tick the room has by then. *)
Definition snapshotSaved (r : RoomState) : RoomState :=
  {| roomId := roomId r; state := state r; previousState := previousState r;
     clients := clients r; lastSnapshotTick := tick (state r);
     isApplyingRemoteDelta := isApplyingRemoteDelta r; sent := sent r |}.

Definition maybeSnapshot (r : RoomState) : RoomState :=
  let ticksSinceSnapshot := JS.subtract (tick (state r)) (lastSnapshotTick r) in
  if Env.snapshotInterval config <=? ticksSinceSnapshot then saveSnapshot r else r.

Definition publishDeltaToRedis (r : RoomState)
    (delta : gmap string (option (gmap string value))) : RoomState :=
  if isApplyingRemoteDelta r then r
  else
    let fullDelta :=
      DeltaEngine.createDeltaPayload config now (roomId r) delta
        (tick (state r)) (seq (state r)) in
    emit (Publish fullDelta) r.

Definition broadcastDelta (r : RoomState)
    (delta : gmap string (option (gmap string value))) : RoomState :=
  if DeltaEngine.isDeltaEmpty delta then r
  else
    let message :=
      {| msgRoomId := roomId r; msgTick := tick (state r); msgSeq := seq (state r);
         msgDelta := delta; msgTimestamp := now |} in
    emit (Broadcast message) r.

Definition removeEntity (r : RoomState) (playerId : string)
    : RoomState * gmap string (option (gmap string value)) :=
  let r := with_previousState (cloneState r) r in
  match JS.get playerId (entities (state r)) with
  | Some _ =>
      let st := state r in
      let st' := {| entities := delete playerId (entities st);
                    tick := JS.increment (tick st);
                    seq := JS.increment (seq st) |} in
      let r := with_state st' r in
      let prev := entities (previousState r) in
      let delta :=
        DeltaEngine.computeEntityDelta
          (DeltaEngine.cloned_view prev (entities (state r)))
          prev (entities (state r)) in
      (r, delta)
  | None => (r, ∅)
  end.

Definition removeClient (r : RoomState) (socket : KasagiSocket) : RoomState :=
  let r := with_clients (clients r ∖ {[socketId socket]}) r in
  match socketPlayerId socket with
  | Some playerId =>
      if negb (String.eqb playerId "")
         && bool_decide (is_Some (JS.get playerId (entities (state r))))
      then
        let '(r, delta) := removeEntity r playerId in
        if negb (DeltaEngine.isDeltaEmpty delta)
        then publishDeltaToRedis (broadcastDelta r delta) delta
        else r
      else r
  | None => r
  end.

Definition applyInput (r : RoomState) (input : PlayerInput)
    : RoomState * gmap string (option (gmap string value)) :=
  let r := with_previousState (cloneState r) r in
  let st := state r in
  let entity :=
    <["lastUpdate" := VNum now]>
      (payload input ∪ JS.spread (JS.get (playerId input) (entities st))) in
  let st' := {| entities := JS.assign (playerId input) entity (entities st);
                tick := JS.increment (tick st);
                seq := JS.increment (seq st) |} in
  let r := with_state st' r in
  let prev := entities (previousState r) in
  let delta :=
    DeltaEngine.computeEntityDelta
      (DeltaEngine.cloned_view prev (entities (state r)))
      prev (entities (state r)) in
  let r :=
    if negb (DeltaEngine.isDeltaEmpty delta)
    then publishDeltaToRedis (broadcastDelta r delta) delta
    else r in
  let r := maybeSnapshot r in
  (r, delta).

Definition applyRemoteDelta (r : RoomState) (remoteDelta : DeltaEngine.FullDelta)
    : RoomState * bool :=
  if negb (DeltaEngine.shouldApplyRemoteDelta config remoteDelta (seq (state r)))
  then (r, false)
  else
    let r := with_isApplyingRemoteDelta true r in
    let st := state r in
    let ents :=
      DeltaEngine.applyDeltaToEntities (entities st) (DeltaEngine.delta remoteDelta) in
    let st' := {| entities := ents;
                  tick := Z.max (tick st) (DeltaEngine.tick remoteDelta);
                  seq := DeltaEngine.seq remoteDelta |} in
    let r := with_state st' r in
    let r := broadcastDelta r (DeltaEngine.delta remoteDelta) in
    (with_isApplyingRemoteDelta false r, true).

End operations.

(** *** Runs of a room

    The calls a room receives from the session dispatcher ([applyInput],
    [addClient], [removeClient]) and from the remote subscriber
    ([applyRemoteDelta]), and the turns in which a [saveSnapshot] goes on
    after its [await], each with the clock reading of its turn. *)

Inductive op : Type :=
  | OpAddClient (socket : KasagiSocket)
  | OpInput (input : PlayerInput)
  | OpRemoveClient (socket : KasagiSocket)
  | OpRemoteDelta (remoteDelta : DeltaEngine.FullDelta)
  | OpSnapshotSaved.

Definition is_local (o : op) : bool :=
  match o with
  | OpRemoteDelta _ => false
  | _ => true
  end.

Definition step (config : Env.config) (r : RoomState) (call : Z * op) : RoomState :=
  let '(now, o) := call in
  match o with
  | OpAddClient socket => addClient r socket
  | OpInput input => (applyInput config now r input).1
  | OpRemoveClient socket => removeClient config now r socket
  | OpRemoteDelta remoteDelta => (applyRemoteDelta config now r remoteDelta).1
  | OpSnapshotSaved => snapshotSaved r
  end.

Definition run (config : Env.config) (r : RoomState) (calls : list (Z * op))
    : RoomState :=
  foldl (step config) r calls.

(** What a run adds to the output log. *)
Definition emitted (config : Env.config) (r : RoomState) (calls : list (Z * op))
    : list effect :=
  drop (length (sent r)) (sent (run config r calls)).

(** The [seq] carried by a broadcast, and by a published, delta. *)
Definition broadcast_seq (e : effect) : option Z :=
  match e with
  | Broadcast message => Some (msgSeq message)
  | _ => None
  end.

Definition publish_seq (e : effect) : option Z :=
  match e with
  | Publish fullDelta => Some (DeltaEngine.seq fullDelta)
  | _ => None
  end.

Definition broadcast_seqs (log : list effect) : list Z := omap broadcast_seq log.
Definition publish_seqs (log : list effect) : list Z := omap publish_seq log.

(** The deltas of a log, without the snapshot requests. *)
Definition is_delta_effect (e : effect) : bool :=
  match e with
  | SaveSnapshot _ _ _ => false
  | _ => true
  end.

Definition deltas_sent (log : list effect) : list effect :=
  List.filter is_delta_effect log.




(** The ids a call brings (of the player of an input or of a socket that
    leaves, of the entities of a remote delta) are no names of
    [Object.prototype]. *)
Definition ordinary_call (o : op) : bool :=
  match o with
  | OpInput input => negb (JS.inherited (playerId input))
  | OpRemoveClient socket =>
      match socketPlayerId socket with
      | Some playerId => negb (JS.inherited playerId)
      | None => true
      end
  | OpRemoteDelta remoteDelta =>
      bool_decide (JS.ordinary (DeltaEngine.delta remoteDelta))
  | _ => true
  end.

End Room.

(** ** Vocabulary of the further properties *)

(** A room id that the channel pattern reads back: not empty and without
    a colon. *)
Fixpoint colon_free (s : string) : bool :=
  match s with
  | String c rest => negb (Ascii.eqb c ":") && colon_free rest
  | EmptyString => true
  end.

Definition valid_room_id (roomId : string) : bool :=
  negb (String.eqb roomId "") && colon_free roomId.

(** The snapshot requests of a log, without the deltas. *)
Definition snapshot_requests (log : list Room.effect) : list Room.effect :=
  List.filter (λ e, negb (Room.is_delta_effect e)) log.


(** ** redis-client.ts: channels, and snapshots in the hash store *)

Module Redis.

(** [`room:${roomId}:channel`] and [`room:${roomId}:snapshot`] *)
Definition roomChannel (roomId : string) : string :=
  String.append "room:" (String.append roomId ":channel").

Definition snapshotKey (roomId : string) : string :=
  String.append "room:" (String.append roomId ":snapshot").

(** [publishDelta]: the channel and the message handed to [redisClient.publish]. *)
Definition publishDelta (roomId encodedDeltaBase64 : string) : string * string :=
  (roomChannel roomId, encodedDeltaBase64).

(** *** [Number.prototype.toString] and [parseInt(_, 10)] on integers *)

Local Open Scope N_scope.

Definition digit_char (d : N) : ascii := ascii_of_N (48 + d).

(** The decimal digits of [n], the least significant first. *)
Fixpoint digits_rev (fuel : nat) (n : N) : list N :=
  match fuel with
  | O => []
  | S fuel' => if n =? 0 then [] else n mod 10 :: digits_rev fuel' (n / 10)
  end.

Definition decimal (n : N) : string :=
  match n with
  | 0 => "0"
  | _ =>
      string_of_list_ascii
        (digit_char <$> rev (digits_rev (S (N.to_nat (N.log2 n))) n))
  end.

(** Beyond [2^53], [toString] prints the decimal with the fewest
    significant digits among those that [a] is the nearest number to (and
    of these the nearest to [a], the even one of two as near).  [scale] is
    the weight of the last significant digit: the multiples of [scale] on
    either side of [a] are the two candidates with that many digits. *)
Definition candidate (a scale : N) : option N :=
  let lo := a / scale * scale in
  let hi := lo + scale in
  let reads_as_a c := (JS.round (Z.of_N c) =? Z.of_N a)%Z in
  match reads_as_a lo, reads_as_a hi with
  | true, true =>
      Some (if a - lo <? hi - a then lo
            else if hi - a <? a - lo then hi
            else if N.even (lo / scale) then lo else hi)
  | true, false => Some lo
  | false, true => Some hi
  | false, false => None
  end.

Fixpoint shortest (scales : list N) (a : N) : N :=
  match scales with
  | [] => a
  | scale :: rest =>
      match candidate a scale with
      | Some c => c
      | None => shortest rest a
      end
  end.

Definition decimal_digits (n : N) : list N :=
  rev (digits_rev (S (N.to_nat (N.log2 n))) n).

(** The weights of the last digit for 1 to 17 significant digits, which
    are enough for every number. *)
Definition scales (a : N) : list N :=
  let m := length (decimal_digits a) in
  (λ k, 10 ^ N.of_nat (m - k)) <$> seq 1 17.

Fixpoint strip_zeros (ds : list N) : list N :=
  match ds with
  | 0 :: rest => strip_zeros rest
  | _ => ds
  end.

(** [d.ddde+n] *)
Definition exponential (c : N) : string :=
  let ds := decimal_digits c in
  let exponent := decimal (N.of_nat (length ds - 1)) in
  match rev (strip_zeros (rev ds)) with
  | [] => "0"
  | [d] => String (digit_char d) (String.append "e+" exponent)
  | d :: more =>
      String (digit_char d)
        (String "."
           (String.append (string_of_list_ascii (digit_char <$> more))
              (String.append "e+" exponent)))
  end.

(** The digits of a positive integer: up to [2^53] all of them; beyond,
    the shortest ones, followed by zeros up to 21 digits and in the
    exponent form from [10^21] on. *)
Definition unsigned_toString (a : N) : string :=
  if (Z.of_N a <=? JS.limit)%Z then decimal a
  else
    let c := shortest (scales a) a in
    if (length (decimal_digits c) <=? 21)%nat then decimal c else exponential c.

Definition number_toString (z : Z) : string :=
  match z with
  | Z0 => "0"
  | Zpos p => unsigned_toString (Npos p)
  | Zneg p => String "-" (unsigned_toString (Npos p))
  end.

Definition digit_value (c : ascii) : option N :=
  let code := N_of_ascii c in
  if (48 <=? code) && (code <=? 57) then Some (code - 48) else None.

(** Tab, line feed, vertical tab, form feed, carriage return and space. *)
Definition is_whitespace (c : ascii) : bool :=
  let code := N_of_ascii c in
  ((9 <=? code) && (code <=? 13)) || (code =? 32).

Fixpoint skip_whitespace (s : string) : string :=
  match s with
  | String c rest => if is_whitespace c then skip_whitespace rest else s
  | EmptyString => s
  end.

Fixpoint leading_digits (s : string) : list N :=
  match s with
  | String c rest =>
      match digit_value c with
      | Some d => d :: leading_digits rest
      | None => []
      end
  | EmptyString => []
  end.

(** [parseInt(s, 10)]: leading white space, a sign, and the digits up to
    the first other character, as the number nearest to what they spell;
    [None] is [NaN]. *)
Definition parseInt (s : string) : option Z :=
  let s := skip_whitespace s in
  let '(negative, s) :=
    match s with
    | String "-" rest => (true, rest)
    | String "+" rest => (false, rest)
    | _ => (false, s)
    end in
  match leading_digits s with
  | [] => None
  | digits =>
      let n := Z.of_N (foldl (λ acc d, acc * 10 + d) 0 digits) in
      Some (JS.round (if negative then (- n)%Z else n))
  end.

(** *** The hash store

    [HSET] writes the given fields of the hash at a key and keeps its other
    fields, [HGETALL] reads a missing key as a hash without fields, [DEL]
    removes the key.  A coordinator that fails is not modelled. *)

Definition hset (key : string) (fields : gmap string string)
    (store : gmap string (gmap string string)) : gmap string (gmap string string) :=
  <[key := fields ∪ default ∅ (store !! key)]> store.

Definition hgetall (key : string) (store : gmap string (gmap string string))
    : gmap string string :=
  default ∅ (store !! key).

Definition del (key : string) (store : gmap string (gmap string string))
    : gmap string (gmap string string) :=
  delete key store.

Definition saveRoomSnapshot (config : Env.config) (now : Z)
    (store : gmap string (gmap string string))
    (roomId data : string) (seq tick : Z) : gmap string (gmap string string) :=
  let key := snapshotKey roomId in
  hset key
    {[ "data" := data;
       "seq" := number_toString seq;
       "tick" := number_toString tick;
       "timestamp" := number_toString now;
       "instanceId" := Env.instanceId config ]}
    store.

(** What [loadRoomSnapshot] returns; a number that is [NaN] is [None]. *)
Record snapshot : Type := {
  data : string;
  seq : option Z;
  tick : option Z;
  timestamp : option Z;
}.

Definition loadRoomSnapshot (store : gmap string (gmap string string))
    (roomId : string) : option snapshot :=
  let key := snapshotKey roomId in
  let snapshot := hgetall key store in
  match snapshot !! "data" with
  | None => None
  | Some text =>
      if String.eqb text "" then None
      else Some {| data := text;
                   seq := snapshot !! "seq" ≫= parseInt;
                   tick := snapshot !! "tick" ≫= parseInt;
                   timestamp := snapshot !! "timestamp" ≫= parseInt |}
  end.

Definition deleteRoomSnapshot (store : gmap string (gmap string string))
    (roomId : string) : gmap string (gmap string string) :=
  let key := snapshotKey roomId in
  del key store.

End Redis.

(** ** room-state.ts: [saveSnapshot] and [loadSnapshot] over the store

    [saveSnapshot] is taken up to its [await], where the snapshot is in
    the store; what follows the [await] is [Room.snapshotSaved].
    [loadSnapshot] runs to its end.  [JSON.stringify] and [JSON.parse] are
    parameters:
    [JSON_stringify entities] is the text of the entities object, and
    [JSON_parse text] is the entities of the state that the text holds, or
    [None] when [JSON.parse] throws. *)

Module Snapshot.

Definition quote : ascii := ascii_of_nat 34.

(** What [loadSnapshot] resolves to.  A snapshot whose seq or tick reads
    [NaN] gives a room with [NaN] counters, which a [RoomStateData] of
    integers does not hold: [NaNCounters]. *)
Inductive loaded : Type :=
  | Restored (room : Room.RoomState)
  | NoSnapshot
  | NaNCounters.

Section json.
Variable JSON_stringify : gmap string (gmap string value) → string.
Variable JSON_parse : string → option (gmap string (gmap string value)).

(** [JSON.stringify({entities: this.state.entities})] *)
Definition snapshot_text (entities : gmap string (gmap string value)) : string :=
  String "{" (String quote (String.append "entities"
    (String quote (String ":" (String.append (JSON_stringify entities) "}"))))).

Definition saveSnapshot (config : Env.config) (now : Z)
    (store : gmap string (gmap string string)) (r : Room.RoomState)
    : gmap string (gmap string string) :=
  let data := snapshot_text (Room.entities (Room.state r)) in
  Redis.saveRoomSnapshot config now store (Room.roomId r) data
    (Room.seq (Room.state r)) (Room.tick (Room.state r)).

Definition loadSnapshot (store : gmap string (gmap string string))
    (roomId : string) : loaded :=
  match Redis.loadRoomSnapshot store roomId with
  | None => NoSnapshot
  | Some snapshot =>
      match JSON_parse (Redis.data snapshot) with
      | None => NoSnapshot
      | Some entities =>
          match Redis.tick snapshot, Redis.seq snapshot with
          | Some tick, Some seq =>
              Restored
                (Room.new roomId
                   (Some {| Room.entities := entities;
                            Room.tick := tick; Room.seq := seq |}))
          | _, _ => NaNCounters
          end
      end
  end.
End json.

End Snapshot.

(** ** redis-subscriber.ts: the handler of the pattern subscription *)

Module Subscriber.

(** [s] without the prefix [prefix], when it starts with it. *)
Fixpoint strip_prefix (prefix s : string) : option string :=
  match prefix, s with
  | EmptyString, _ => Some s
  | String p prefix', String c s' =>
      if Ascii.eqb p c then strip_prefix prefix' s' else None
  | String _ _, EmptyString => None
  end.

(** The longest prefix of [s] without a colon, and what follows it. *)
Fixpoint span_not_colon (s : string) : string * string :=
  match s with
  | String c rest =>
      if Ascii.eqb c ":" then (EmptyString, s)
      else let '(word, tail) := span_not_colon rest in (String c word, tail)
  | EmptyString => (EmptyString, EmptyString)
  end.

(** [channel.match(/^room:([^:]+):channel$/)], and its group 1: after
    [room:] the group takes every character up to the first colon, at least
    one, and what follows has to be [:channel] up to the end. *)
Definition matchRoomChannel (channel : string) : option string :=
  match strip_prefix "room:" channel with
  | None => None
  | Some rest =>
      let '(roomId, tail) := span_not_colon rest in
      if String.eqb roomId "" then None
      else if String.eqb tail ":channel" then Some roomId
      else None
  end.

(** The [pmessage] handler up to its [await getOrCreateRoom(roomId)]: the
    room id and the delta it goes on with, or [None] when it drops the
    message (a payload that does not decode, a delta of this instance, a
    channel of another format, a room id that is not the delta's). *)
Definition route (msgpack_decode : list byte → option DeltaEngine.FullDelta)
    (config : Env.config) (channel message : string)
    : option (string * DeltaEngine.FullDelta) :=
  match DeltaEngine.decodeDeltaFromBase64 msgpack_decode message with
  | None => None
  | Some delta =>
      if String.eqb (DeltaEngine.instanceId delta) (Env.instanceId config)
      then None
      else
        match matchRoomChannel channel with
        | None => None
        | Some roomId =>
            if negb (String.eqb roomId (DeltaEngine.roomId delta)) then None
            else Some (roomId, delta)
        end
  end.

(** What a room hands to [publishDelta] when it publishes [fullDelta]: the
    room id is that of the payload, [this.roomId] in both places. *)
Definition published (msgpack_encode : DeltaEngine.FullDelta → list byte)
    (fullDelta : DeltaEngine.FullDelta) : string * string :=
  Redis.publishDelta (DeltaEngine.roomId fullDelta)
    (DeltaEngine.encodeDeltaToBase64 msgpack_encode fullDelta).

End Subscriber.

(** ** ws-server.ts: [handleInput] *)

Module WsServer.

(** A parsed [input] message; a field that is missing is [None]. *)
Record WsInputMessage : Type := {
  roomId : option string;
  playerId : option string;
  payload : option (gmap string value);
}.

(** [sendError(socket, code, message)] *)
Inductive reply : Type :=
  | ErrorReply (code message : string).

(** A string that is present and not empty. *)
Definition truthy (s : option string) : option string :=
  match s with
  | Some s => if String.eqb s "" then None else Some s
  | None => None
  end.

(** [rooms] is the registry of room-manager.ts, which [getRoom] reads;
    [socketRoomId] is [socket.roomId]. *)
Definition handleInput (config : Env.config) (now : Z)
    (rooms : gmap string Room.RoomState) (socketRoomId : option string)
    (message : WsInputMessage) : gmap string Room.RoomState * option reply :=
  match truthy (roomId message), truthy (playerId message), payload message with
  | Some roomId, Some playerId, Some payload =>
      if negb (bool_decide (socketRoomId = Some roomId))
      then (rooms, Some (ErrorReply "WRONG_ROOM" "You are not in this room"))
      else
        match rooms !! roomId with
        | None => (rooms, Some (ErrorReply "ROOM_NOT_FOUND" "Room does not exist"))
        | Some room =>
            let input :=
              {| Room.playerId := playerId; Room.payload := payload;
                 Room.timestamp := None |} in
            (<[roomId := (Room.applyInput config now room input).1]> rooms, None)
        end
  | _, _, _ =>
      (rooms,
       Some (ErrorReply "INVALID_INPUT" "roomId, playerId, and payload are required"))
  end.

End WsServer.

(** * Properties of the base64 conversions *)

Module BufferFacts.
Import Buffer.
Local Open Scope N_scope.

Ltac div_lia := zify; Z.to_euclidean_division_equations; lia.

Lemma char_to_sextet_to_char (n : N) :
  n < 64 →
  char_to_sextet (sextet_to_char n) = Some n
  ∧ Ascii.eqb (sextet_to_char n) "=" = false.
Proof.
  intros Hn. destruct n as [| p]; [done |].
  do 7 (try destruct p as [p | p |]); try lia; done.
Qed.

Lemma sextets_cons (n : N) (s : string) :
  n < 64 → sextets (String (sextet_to_char n) s) = n :: sextets s.
Proof.
  intros Hn. destruct (char_to_sextet_to_char n Hn) as [Hc Hp].
  cbn [sextets]. by rewrite Hp, Hc.
Qed.

Lemma byte_of_to_N (b : byte) : byte_of_N (Byte.to_N b) = b.
Proof.
  unfold byte_of_N. pose proof (Byte.to_N_bounded b).
  rewrite N.mod_small by lia. by rewrite Byte.of_to_N.
Qed.

Lemma list_ind3 {A} (P : list A → Prop) :
  P [] → (∀ a, P [a]) → (∀ a b, P [a; b]) →
  (∀ a b c l, P l → P (a :: b :: c :: l)) →
  ∀ l, P l.
Proof.
  intros H0 H1 H2 H3.
  fix IH 1. intros [| a [| b [| c l]]]; [apply H0 | apply H1 | apply H2 | apply H3, IH].
Qed.

Lemma from_base64_toString_base64 (bytes : list byte) :
  from_base64 (toString_base64 bytes) = bytes.
Proof.
  unfold from_base64.
  induction bytes as [| b1 | b1 b2 | b1 b2 b3 rest IH] using list_ind3.
  - done.
  - pose proof (Byte.to_N_bounded b1). cbn [toString_base64].
    rewrite !sextets_cons by div_lia.
    cbn [sextets Ascii.eqb Bool.eqb bytes_of_sextets].
    replace (_ * 4 + _ / 16) with (Byte.to_N b1) by div_lia.
    by rewrite byte_of_to_N.
  - pose proof (Byte.to_N_bounded b1). pose proof (Byte.to_N_bounded b2).
    cbn [toString_base64].
    rewrite !sextets_cons by div_lia.
    cbn [sextets Ascii.eqb Bool.eqb bytes_of_sextets].
    replace (_ * 4 + _ / 16) with (Byte.to_N b1) by div_lia.
    replace (_ mod 16 * 16 + _ / 4) with (Byte.to_N b2) by div_lia.
    by rewrite !byte_of_to_N.
  - pose proof (Byte.to_N_bounded b1). pose proof (Byte.to_N_bounded b2).
    pose proof (Byte.to_N_bounded b3).
    cbn [toString_base64].
    rewrite !sextets_cons by div_lia. cbn [bytes_of_sextets]. rewrite IH.
    replace (_ * 4 + _ / 16) with (Byte.to_N b1) by div_lia.
    replace (_ mod 16 * 16 + _ / 4) with (Byte.to_N b2) by div_lia.
    replace (_ mod 4 * 64 + _) with (Byte.to_N b3) by div_lia.
    by rewrite !byte_of_to_N.
Qed.
End BufferFacts.

(** * Properties of numbers and plain objects *)

Module JSFacts.
Import JS.

Lemma increment_exact (x : Z) : exact (x + 1) → increment x = x + 1.
Proof.
  unfold exact. intros Hx. unfold increment.
  destruct (Z.leb_spec (Z.abs (x + 1)) limit) as [_ | Hgt]; [done | lia].
Qed.

Lemma increment_le (x : Z) : x ≤ increment x.
Proof.
  unfold increment.
  destruct (Z.abs (x + 1) <=? limit); [lia |].
  destruct (Z.abs x <? 2 * limit); [| lia].
  destruct (Z.even (x / 2)); lia.
Qed.

Lemma round_exact (x : Z) : exact x → round x = x.
Proof.
  unfold exact. intros Hx. unfold round. cbv zeta.
  destruct (Z.leb_spec (Z.abs x) limit) as [_ | Hgt]; [done | lia].
Qed.

Lemma subtract_exact (a b : Z) : exact (a - b) → subtract a b = a - b.
Proof. apply round_exact. Qed.

Lemma inherited_proto : inherited "__proto__" = true.
Proof. reflexivity. Qed.

Lemma ordinary_not_proto (key : string) : inherited key = false → key ≠ "__proto__".
Proof. intros Hkey ->. discriminate Hkey. Qed.


Lemma get_ordinary (key : string) (obj : gmap string (gmap string value)) :
  inherited key = false → get key obj = Plain <$> obj !! key.
Proof. unfold get. intros ->. by destruct (obj !! key). Qed.


Lemma has_property_own {A} (key : string) (obj : gmap string A) :
  is_Some (obj !! key) → has_property key obj = true.
Proof. unfold has_property. by intros [a ->]. Qed.

Lemma has_property_ordinary {A} (key : string) (obj : gmap string A) :
  inherited key = false →
  has_property key obj = true ↔ is_Some (obj !! key).
Proof.
  unfold has_property. intros ->. destruct (obj !! key); [by eauto |].
  split; [done | by intros [? ?]].
Qed.

Lemma has_property_missing {A} (key : string) (obj : gmap string A) :
  obj !! key = None → has_property key obj = inherited key.
Proof. unfold has_property. by intros ->. Qed.

Lemma assign_lookup_eq {A} (key : string) (a : A) (obj : gmap string A) :
  assign key a obj !! key =
    match obj !! key with
    | Some _ => Some a
    | None => if String.eqb key "__proto__" then None else Some a
    end.
Proof.
  unfold assign. destruct (obj !! key) eqn:Hkey; [apply lookup_insert_eq |].
  destruct (String.eqb key "__proto__"); [done | apply lookup_insert_eq].
Qed.

Lemma assign_lookup_ne {A} (key j : string) (a : A) (obj : gmap string A) :
  key ≠ j → assign key a obj !! j = obj !! j.
Proof.
  intros Hne. unfold assign. destruct (obj !! key).
  - by apply lookup_insert_ne.
  - destruct (String.eqb key "__proto__"); [done | by apply lookup_insert_ne].
Qed.

Lemma assign_ordinary {A} (key : string) (a : A) (obj : gmap string A) :
  key ≠ "__proto__" → assign key a obj = <[key := a]> obj.
Proof.
  intros Hkey. unfold assign. destruct (obj !! key); [done |].
  by destruct (String.eqb_spec key "__proto__").
Qed.

Lemma ordinary_lookup {A} (obj : gmap string A) (key : string) :
  ordinary obj → is_Some (obj !! key) → inherited key = false.
Proof. intros Hobj [a Ha]. exact (Hobj key a Ha). Qed.

End JSFacts.

(** * Properties of the delta engine *)

Module DeltaEngineFacts.
Import DeltaEngine.

Lemma isDeltaEmpty_true (d : gmap string (option (gmap string value))) :
  isDeltaEmpty d = true ↔ d = ∅.
Proof.
  unfold isDeltaEmpty. rewrite Nat.eqb_eq. apply map_size_empty_iff.
Qed.

Lemma isDeltaEmpty_false (d : gmap string (option (gmap string value))) :
  isDeltaEmpty d = false ↔ d ≠ ∅.
Proof.
  rewrite <- isDeltaEmpty_true. destruct (isDeltaEmpty d); split; congruence.
Qed.

(** *** The two loops of [applyDeltaToEntities], entry by entry *)

Lemma applyFieldChanges_lookup (entity changes : gmap string value) (f : string) :
  applyFieldChanges entity changes !! f =
    match changes !! f with
    | Some v =>
        if is_null v then None
        else match entity !! f with
             | Some _ => Some v
             | None => if String.eqb f "__proto__" then None else Some v
             end
    | None => entity !! f
    end.
Proof.
  unfold applyFieldChanges. revert f.
  apply (map_fold_weak_ind (λ r (m : gmap string value), ∀ f,
    r !! f = match m !! f with
             | Some v =>
                 if is_null v then None
                 else match entity !! f with
                      | Some _ => Some v
                      | None => if String.eqb f "__proto__" then None else Some v
                      end
             | None => entity !! f
             end)).
  - intros f. by rewrite lookup_empty.
  - intros k v m r Hk IH f. destruct (decide (k = f)) as [-> | Hne].
    + rewrite lookup_insert_eq. pose proof (IH f) as Hf. rewrite Hk in Hf.
      destruct (is_null v).
      * apply lookup_delete_eq.
      * by rewrite JSFacts.assign_lookup_eq, Hf.
    + rewrite (lookup_insert_ne m) by done. rewrite <- IH.
      destruct (is_null v).
      * by apply lookup_delete_ne.
      * by apply JSFacts.assign_lookup_ne.
Qed.

Lemma applyDeltaToEntities_lookup (entities : gmap string (gmap string value))
    (delta : gmap string (option (gmap string value))) (e : string) :
  applyDeltaToEntities entities delta !! e =
    match delta !! e with
    | Some None => None
    | Some (Some changes) =>
        match JS.get e entities with
        | None => Some changes
        | Some (JS.Plain entity) => Some (applyFieldChanges entity changes)
        | Some (JS.Member _) => None
        end
    | None => entities !! e
    end.
Proof.
  unfold applyDeltaToEntities. revert e.
  apply (map_fold_weak_ind
    (λ r (m : gmap string (option (gmap string value))), ∀ e,
       r !! e = match m !! e with
                | Some None => None
                | Some (Some changes) =>
                    match JS.get e entities with
                    | None => Some changes
                    | Some (JS.Plain entity) => Some (applyFieldChanges entity changes)
                    | Some (JS.Member _) => None
                    end
                | None => entities !! e
                end)).
  - intros e. by rewrite lookup_empty.
  - intros k c m r Hk IH e.
    pose proof (IH k) as Hrk. rewrite Hk in Hrk.
    assert (Hget : JS.get k r = JS.get k entities) by (unfold JS.get; by rewrite Hrk).
    destruct (decide (k = e)) as [-> | Hne].
    + rewrite lookup_insert_eq. destruct c as [changes |].
      * rewrite Hget. unfold JS.get in *. rewrite <- Hrk.
        destruct (r !! e) as [entity |] eqn:Hre; [apply lookup_insert_eq |].
        destruct (JS.inherited e) eqn:Hin; [done |].
        rewrite JSFacts.assign_ordinary by (by apply JSFacts.ordinary_not_proto).
        apply lookup_insert_eq.
      * apply lookup_delete_eq.
    + rewrite (lookup_insert_ne m) by done. rewrite <- IH.
      destruct c as [changes |].
      * destruct (JS.get k r) as [[entity | name] |];
          [by apply lookup_insert_ne | done | by apply JSFacts.assign_lookup_ne].
      * by apply lookup_delete_ne.
Qed.

(** *** The loops of [computeEntityDelta], entry by entry *)

(** A loop [for (k of Object.keys(m)) if (!(k in other)) acc[k] = mark]. *)
Lemma removed_keys_lookup {A B} (other : gmap string B) (mark : A)
    (acc : gmap string A) (m : gmap string B) (k : string) :
  map_fold (λ key _ acc, if negb (JS.has_property key other)
                         then JS.assign key mark acc else acc) acc m !! k =
    match m !! k with
    | Some _ => if JS.has_property k other then acc !! k else Some mark
    | None => acc !! k
    end.
Proof.
  revert k.
  apply (map_fold_weak_ind (λ r (m : gmap string B), ∀ k,
    r !! k = match m !! k with
             | Some _ => if JS.has_property k other then acc !! k else Some mark
             | None => acc !! k
             end)).
  - intros k. by rewrite lookup_empty.
  - intros j x m' r Hj IH k. destruct (decide (j = k)) as [-> | Hne].
    + rewrite lookup_insert_eq. specialize (IH k). rewrite Hj in IH.
      destruct (JS.has_property k other) eqn:Hk; simpl; [done |].
      rewrite JSFacts.assign_ordinary; [apply lookup_insert_eq |].
      intros ->. unfold JS.has_property in Hk.
      by destruct (other !! "__proto__").
    + rewrite (lookup_insert_ne m') by done. rewrite <- IH.
      destruct (negb (JS.has_property j other));
        [by apply JSFacts.assign_lookup_ne | done].
Qed.

Lemma computeFieldDelta_lookup (view : js_view) (e : string)
    (prevEntity : JS.object) (nextEntity : gmap string value) (f : string) :
  computeFieldDelta view e prevEntity nextEntity !! f =
    if String.eqb f "__proto__" then None
    else
      match nextEntity !! f with
      | Some nv =>
          if strict_neq view e f (JS.field prevEntity f) nv then Some nv else None
      | None => match JS.own prevEntity !! f with
                | Some _ => if JS.inherited f then None else Some VNull
                | None => None
                end
      end.
Proof.
  unfold computeFieldDelta. rewrite removed_keys_lookup.
  assert (Hfirst : ∀ f,
    map_fold (λ field nextValue fieldDelta,
                if strict_neq view e field (JS.field prevEntity field) nextValue
                then JS.assign field nextValue fieldDelta else fieldDelta)
             (∅ : gmap string value) nextEntity !! f =
      if String.eqb f "__proto__" then None
      else
        match nextEntity !! f with
        | Some nv =>
            if strict_neq view e f (JS.field prevEntity f) nv then Some nv else None
        | None => None
        end).
  { apply (map_fold_weak_ind (λ r (m : gmap string value), ∀ f,
      r !! f = if String.eqb f "__proto__" then None
               else
                 match m !! f with
                 | Some nv =>
                     if strict_neq view e f (JS.field prevEntity f) nv
                     then Some nv else None
                 | None => None
                 end)).
    - intros k. rewrite !lookup_empty. by destruct (String.eqb k "__proto__").
    - intros j x m r Hj IH k. destruct (decide (j = k)) as [-> | Hne].
      + rewrite lookup_insert_eq. specialize (IH k). rewrite Hj in IH.
        destruct (strict_neq view e k (JS.field prevEntity k) x).
        * rewrite JSFacts.assign_lookup_eq.
          destruct (String.eqb k "__proto__"); by rewrite IH.
        * rewrite IH. by destruct (String.eqb k "__proto__").
      + rewrite (lookup_insert_ne m) by done. rewrite <- IH.
        destruct (strict_neq view e j (JS.field prevEntity j) x);
          [by apply JSFacts.assign_lookup_ne | done]. }
  rewrite Hfirst. unfold JS.has_property.
  destruct (String.eqb_spec f "__proto__") as [-> | Hf].
  - by destruct (JS.own prevEntity !! "__proto__"), (nextEntity !! "__proto__").
  - destruct (nextEntity !! f) as [nv |]; [by destruct (JS.own prevEntity !! f) |].
    destruct (JS.own prevEntity !! f); [| done]. by destruct (JS.inherited f).
Qed.

Lemma computeEntityDelta_lookup (view : js_view)
    (prev next : gmap string (gmap string value)) (e : string) :
  computeEntityDelta view prev next !! e =
    if String.eqb e "__proto__" then None
    else
      match next !! e with
      | Some nextEntity =>
          match JS.get e prev with
          | None => Some (Some nextEntity)
          | Some prevEntity =>
              if same_text view e prevEntity nextEntity then None
              else if (0 <? size (computeFieldDelta view e prevEntity nextEntity))%nat
                   then Some (Some (computeFieldDelta view e prevEntity nextEntity))
                   else None
          end
      | None => match prev !! e with
                | Some _ => if JS.inherited e then None else Some None
                | None => None
                end
      end.
Proof.
  unfold computeEntityDelta. rewrite removed_keys_lookup.
  set (body := λ (e : string) (nextEntity : gmap string value),
         match JS.get e prev with
         | None => Some (Some nextEntity)
         | Some prevEntity =>
             if same_text view e prevEntity nextEntity then None
             else if (0 <? size (computeFieldDelta view e prevEntity nextEntity))%nat
                  then Some (Some (computeFieldDelta view e prevEntity nextEntity))
                  else None
         end).
  assert (Hfirst : ∀ e,
    map_fold (λ entityId nextEntity delta,
                match JS.get entityId prev with
                | None => JS.assign entityId (Some nextEntity) delta
                | Some prevEntity =>
                    if negb (same_text view entityId prevEntity nextEntity) then
                      let fieldDelta :=
                        computeFieldDelta view entityId prevEntity nextEntity in
                      if (0 <? size fieldDelta)%nat
                      then JS.assign entityId (Some fieldDelta) delta
                      else delta
                    else delta
                end)
             (∅ : gmap string (option (gmap string value))) next !! e =
      if String.eqb e "__proto__" then None
      else match next !! e with
           | Some nextEntity => body e nextEntity
           | None => None
           end).
  { apply (map_fold_weak_ind (λ r (m : gmap string (gmap string value)), ∀ e,
      r !! e = if String.eqb e "__proto__" then None
               else match m !! e with
                    | Some nextEntity => body e nextEntity
                    | None => None
                    end)).
    - intros k. rewrite !lookup_empty. by destruct (String.eqb k "__proto__").
    - intros j x m r Hj IH k. destruct (decide (j = k)) as [-> | Hne].
      + rewrite lookup_insert_eq. specialize (IH k). rewrite Hj in IH.
        unfold body.
        destruct (JS.get k prev) as [prevEntity |].
        * destruct (same_text view k prevEntity x); simpl.
          { rewrite IH. by destruct (String.eqb k "__proto__"). }
          destruct (0 <? size (computeFieldDelta view k prevEntity x))%nat.
          -- rewrite JSFacts.assign_lookup_eq, IH.
             by destruct (String.eqb k "__proto__").
          -- rewrite IH. by destruct (String.eqb k "__proto__").
        * rewrite JSFacts.assign_lookup_eq, IH.
          by destruct (String.eqb k "__proto__").
      + rewrite (lookup_insert_ne m) by done. rewrite <- IH.
        destruct (JS.get j prev) as [prevEntity |].
        * destruct (negb (same_text view j prevEntity x)); [| done]. cbv zeta.
          destruct (0 <? size (computeFieldDelta view j prevEntity x))%nat;
            [by apply JSFacts.assign_lookup_ne | done].
        * by apply JSFacts.assign_lookup_ne. }
  rewrite Hfirst. unfold body, JS.has_property.
  destruct (String.eqb_spec e "__proto__") as [-> | He].
  - by destruct (prev !! "__proto__"), (next !! "__proto__").
  - destruct (next !! e) as [nextEntity |]; [by destruct (prev !! e) |].
    destruct (prev !! e); [| done]. by destruct (JS.inherited e).
Qed.

(** *** The loops on names that [Object.prototype] does not hold *)

Lemma computeFieldDelta_lookup_plain (view : js_view) (e : string)
    (prevEntity nextEntity : gmap string value) (f : string) :
  JS.ordinary prevEntity → JS.ordinary nextEntity →
  computeFieldDelta view e (JS.Plain prevEntity) nextEntity !! f =
    match nextEntity !! f with
    | Some nv => if strict_neq view e f (prevEntity !! f) nv then Some nv else None
    | None => match prevEntity !! f with
              | Some _ => Some VNull
              | None => None
              end
    end.
Proof.
  intros Hprev Hnext. rewrite computeFieldDelta_lookup. cbn [JS.field JS.own].
  destruct (String.eqb_spec f "__proto__") as [-> | Hf].
  - destruct (nextEntity !! "__proto__") eqn:Hn.
    { by apply Hnext in Hn. }
    destruct (prevEntity !! "__proto__") eqn:Hp; [| done].
    by apply Hprev in Hp.
  - destruct (nextEntity !! f); [done |].
    destruct (prevEntity !! f) eqn:Hp; [| done].
    by rewrite (Hprev f _ Hp).
Qed.

Lemma computeFieldDelta_ordinary (view : js_view) (e : string)
    (prevEntity nextEntity : gmap string value) :
  JS.ordinary prevEntity → JS.ordinary nextEntity →
  JS.ordinary (computeFieldDelta view e (JS.Plain prevEntity) nextEntity).
Proof.
  intros Hprev Hnext f v Hf.
  rewrite computeFieldDelta_lookup_plain in Hf by done.
  destruct (nextEntity !! f) eqn:Hn; [by apply Hnext in Hn |].
  destruct (prevEntity !! f) eqn:Hp; [by apply Hprev in Hp | done].
Qed.

Lemma computeEntityDelta_lookup_plain (view : js_view)
    (prev next : gmap string (gmap string value)) (e : string) :
  JS.ordinary prev → JS.ordinary next →
  computeEntityDelta view prev next !! e =
    match next !! e, prev !! e with
    | Some nextEntity, None => Some (Some nextEntity)
    | Some nextEntity, Some prevEntity =>
        (if same_json view e then None
         else if (0 <? size (computeFieldDelta view e (JS.Plain prevEntity)
                               nextEntity))%nat
              then Some (Some (computeFieldDelta view e (JS.Plain prevEntity)
                                 nextEntity))
              else None)
    | None, Some _ => Some None
    | None, None => None
    end.
Proof.
  intros Hprev Hnext. rewrite computeEntityDelta_lookup.
  destruct (String.eqb_spec e "__proto__") as [-> | He].
  - destruct (next !! "__proto__") eqn:Hn.
    { by apply Hnext in Hn. }
    destruct (prev !! "__proto__") eqn:Hp; [| done].
    by apply Hprev in Hp.
  - destruct (next !! e) as [nextEntity |] eqn:Hn.
    + rewrite JSFacts.get_ordinary by (by apply Hnext in Hn).
      by destruct (prev !! e).
    + destruct (prev !! e) eqn:Hp; [| done]. by rewrite (Hprev e _ Hp).
Qed.

Lemma computeEntityDelta_ordinary (view : js_view)
    (prev next : gmap string (gmap string value)) :
  JS.ordinary prev → JS.ordinary next →
  JS.ordinary (computeEntityDelta view prev next).
Proof.
  intros Hprev Hnext e c He.
  rewrite computeEntityDelta_lookup_plain in He by done.
  destruct (next !! e) eqn:Hn; [by apply Hnext in Hn |].
  destruct (prev !! e) eqn:Hp; [by apply Hprev in Hp | done].
Qed.

Lemma applyFieldChanges_lookup_plain (entity changes : gmap string value)
    (f : string) :
  JS.ordinary changes →
  applyFieldChanges entity changes !! f =
    match changes !! f with
    | Some v => if is_null v then None else Some v
    | None => entity !! f
    end.
Proof.
  intros Hchanges. rewrite applyFieldChanges_lookup.
  destruct (changes !! f) as [v |] eqn:Hf; [| done].
  destruct (is_null v); [done |]. destruct (entity !! f); [done |].
  apply Hchanges in Hf. apply JSFacts.ordinary_not_proto in Hf.
  by destruct (String.eqb_spec f "__proto__").
Qed.

Lemma applyDeltaToEntities_lookup_plain (entities : gmap string (gmap string value))
    (delta : gmap string (option (gmap string value))) (e : string) :
  JS.ordinary delta →
  applyDeltaToEntities entities delta !! e =
    match delta !! e with
    | Some None => None
    | Some (Some changes) =>
        match entities !! e with
        | None => Some changes
        | Some entity => Some (applyFieldChanges entity changes)
        end
    | None => entities !! e
    end.
Proof.
  intros Hdelta. rewrite applyDeltaToEntities_lookup.
  destruct (delta !! e) as [[changes |] |] eqn:He; [| done | done].
  rewrite JSFacts.get_ordinary by (by apply Hdelta in He).
  by destruct (entities !! e).
Qed.

(** *** Applying a computed delta *)

Lemma strict_eq_sound (view : js_view) (e f : string) (a b : value) :
  (same_ref view e f = true → a = b) →
  strict_eq view e f a b = true → a = b.
Proof.
  intros Href. destruct a, b; simpl; try discriminate; try done.
  - intros ->%Bool.eqb_prop. done.
  - intros ->%Z.eqb_eq. done.
  - intros ->%String.eqb_eq. done.
Qed.

Lemma strict_eq_null (view : js_view) (e f : string) (a : value) :
  strict_eq view e f a VNull = true ↔ a = VNull.
Proof. destruct a; simpl; split; congruence. Qed.

Lemma cloned_view_sound (prev next : gmap string (gmap string value)) :
  view_sound (cloned_view prev next) prev next.
Proof.
  split.
  - intros e pe ne Hp Hn. simpl. rewrite bool_decide_eq_true. congruence.
  - intros e f pe ne a b _ _ _ _. simpl. discriminate.
Qed.

Lemma cloned_view_same_json (prev next : gmap string (gmap string value))
    (e : string) :
  same_json (cloned_view prev next) e = bool_decide (prev !! e = next !! e).
Proof. reflexivity. Qed.

Lemma applyFieldChanges_empty (entity : gmap string value) :
  applyFieldChanges entity ∅ = entity.
Proof. unfold applyFieldChanges. apply map_fold_empty. Qed.

(** Patching an entity with its field diff gives the target entity, as long
    as the diff carries no [null] that stands for a value. *)
Lemma applyFieldChanges_computeFieldDelta (view : js_view) (e : string)
    (prevEntity nextEntity : gmap string value) :
  JS.ordinary prevEntity → JS.ordinary nextEntity →
  (∀ f a b, prevEntity !! f = Some a → nextEntity !! f = Some b →
            same_ref view e f = true → a = b) →
  (∀ f, nextEntity !! f = Some VNull → prevEntity !! f = Some VNull) →
  applyFieldChanges prevEntity
    (computeFieldDelta view e (JS.Plain prevEntity) nextEntity)
    = nextEntity.
Proof.
  intros Hprev Hnext Href Hnull. apply map_eq. intros f.
  rewrite applyFieldChanges_lookup_plain by (by apply computeFieldDelta_ordinary).
  rewrite computeFieldDelta_lookup_plain by done.
  destruct (nextEntity !! f) as [nv |] eqn:Hn.
  - destruct (prevEntity !! f) as [pv |] eqn:Hp; simpl.
    + destruct (strict_eq view e f pv nv) eqn:Heq; simpl.
      * f_equal. eapply strict_eq_sound; [| exact Heq]. eauto.
      * destruct nv; simpl; try done.
        specialize (Hnull f Hn). rewrite Hp in Hnull.
        injection Hnull as ->. simpl in Heq. discriminate.
    + destruct nv; simpl; try done.
      specialize (Hnull f Hn). congruence.
  - destruct (prevEntity !! f) as [pv |] eqn:Hp; simpl; done.
Qed.

(** C1 (as stated, refuted).  With [x = {p1: {x: 1}}] and
    [y = {p1: {x: null}}] the computed delta is [{p1: {x: null}}], and
    applying it to [x] deletes the field: the result is [{p1: {}}], not [y].
    And where a name is one of [Object.prototype] the target is not
    rebuilt either: for [x = {}] and [y = {constructor: {zz: 1}}] the delta
    is [{constructor: {zz: 1}}] and [x] stays empty (the change is written
    on the inherited [constructor]); for [x = {p1: {toString: 1, a: 1}}]
    and [y = {p1: {a: 1}}] the delta is empty ([toString in] the new entity
    holds by inheritance). *)
Lemma apply_compute_null_field_counterexample :
  let x : gmap string (gmap string value) := {[ "p1" := {[ "x" := VNum 1 ]} ]} in
  let y : gmap string (gmap string value) := {[ "p1" := {[ "x" := VNull ]} ]} in
  let x1 : gmap string (gmap string value) := ∅ in
  let y1 : gmap string (gmap string value) :=
    {[ "constructor" := {[ "zz" := VNum 1 ]} ]} in
  let x2 : gmap string (gmap string value) :=
    {[ "p1" := {[ "toString" := VNum 1; "a" := VNum 1 ]} ]} in
  let y2 : gmap string (gmap string value) := {[ "p1" := {[ "a" := VNum 1 ]} ]} in
  computeEntityDelta (cloned_view x y) x y = {[ "p1" := Some {[ "x" := VNull ]} ]}
  ∧ applyDeltaToEntities x (computeEntityDelta (cloned_view x y) x y) = {[ "p1" := ∅ ]}
  ∧ applyDeltaToEntities x (computeEntityDelta (cloned_view x y) x y) ≠ y
  ∧ computeEntityDelta (cloned_view x1 y1) x1 y1
    = {[ "constructor" := Some {[ "zz" := VNum 1 ]} ]}
  ∧ applyDeltaToEntities x1 (computeEntityDelta (cloned_view x1 y1) x1 y1) = ∅
  ∧ applyDeltaToEntities x1 (computeEntityDelta (cloned_view x1 y1) x1 y1) ≠ y1
  ∧ computeEntityDelta (cloned_view x2 y2) x2 y2 = ∅
  ∧ applyDeltaToEntities x2 (computeEntityDelta (cloned_view x2 y2) x2 y2) ≠ y2.
Proof.
  intros x y x1 y1 x2 y2. repeat split; by_compute.
Qed.

(** C1 (amended).  For entity-maps [x] and [y] whose entity ids and field
    names are no names of [Object.prototype], applying the computed delta
    to [x] reconstructs [y] exactly when no field of an entity present in
    both becomes [null] in [y] (a [null] in the delta is read as a removal).
    This holds whatever the diff observes of object identity and key order. *)
Theorem apply_compute_roundtrip_iff (view : js_view)
    (x y : gmap string (gmap string value)) :
  view_sound view x y →
  ordinary_names x → ordinary_names y →
  (applyDeltaToEntities x (computeEntityDelta view x y) = y ↔ null_safe x y).
Proof.
  intros [Hjson Href] [Hx Hxf] [Hy Hyf].
  pose proof (computeEntityDelta_ordinary view x y Hx Hy) as Hdelta.
  split.
  - intros Heq e pe ne f Hpe Hne Hnull.
    apply (f_equal (λ m, m !! e)) in Heq.
    rewrite applyDeltaToEntities_lookup_plain in Heq by done.
    rewrite computeEntityDelta_lookup_plain in Heq by done.
    rewrite Hpe, Hne in Heq.
    destruct (same_json view e) eqn:Hsame.
    { congruence. }
    assert (Hpatch : applyFieldChanges pe (computeFieldDelta view e (JS.Plain pe) ne)
                     = ne).
    { destruct (0 <? size (computeFieldDelta view e (JS.Plain pe) ne))%nat eqn:Hsize.
      - congruence.
      - apply Nat.ltb_ge in Hsize.
        assert (computeFieldDelta view e (JS.Plain pe) ne = ∅) as ->.
        { apply map_size_empty_iff. lia. }
        rewrite applyFieldChanges_empty. congruence. }
    apply (f_equal (λ m, m !! f)) in Hpatch.
    rewrite applyFieldChanges_lookup_plain in Hpatch
      by (apply computeFieldDelta_ordinary; [exact (Hxf e pe Hpe) | exact (Hyf e ne Hne)]).
    rewrite computeFieldDelta_lookup_plain in Hpatch
      by (first [exact (Hxf e pe Hpe) | exact (Hyf e ne Hne)]).
    rewrite Hnull in Hpatch.
    destruct (pe !! f) as [a |] eqn:Ha; simpl in Hpatch; [| done].
    destruct (strict_eq view e f a VNull) eqn:Hs; simpl in Hpatch; [| done].
    apply strict_eq_null in Hs. by subst.
  - intros Hsafe. apply map_eq. intros e.
    rewrite applyDeltaToEntities_lookup_plain by done.
    rewrite computeEntityDelta_lookup_plain by done.
    destruct (y !! e) as [ne |] eqn:Hne, (x !! e) as [pe |] eqn:Hpe;
      try done.
    assert (Hpatch : applyFieldChanges pe (computeFieldDelta view e (JS.Plain pe) ne)
                     = ne).
    { apply applyFieldChanges_computeFieldDelta;
        [exact (Hxf e pe Hpe) | exact (Hyf e ne Hne) | by eauto | by eauto]. }
    destruct (same_json view e) eqn:Hsame.
    { f_equal. eauto. }
    destruct (0 <? size (computeFieldDelta view e (JS.Plain pe) ne))%nat eqn:Hsize.
    + by f_equal.
    + apply Nat.ltb_ge in Hsize.
      assert (Hempty : computeFieldDelta view e (JS.Plain pe) ne = ∅).
      { apply map_size_empty_iff. lia. }
      rewrite Hempty, applyFieldChanges_empty in Hpatch.
      by f_equal.
Qed.

(** The amended round trip at [x = {p1: {x: 1, y: 2}, p2: {hp: 5}}] and
    [y = {p1: {x: 3}, p3: {hp: 9}}]. *)
Lemma apply_compute_roundtrip_iff_witness :
  let x : gmap string (gmap string value) :=
    {[ "p1" := {[ "x" := VNum 1; "y" := VNum 2 ]}; "p2" := {[ "hp" := VNum 5 ]} ]} in
  let y : gmap string (gmap string value) :=
    {[ "p1" := {[ "x" := VNum 3 ]}; "p3" := {[ "hp" := VNum 9 ]} ]} in
  view_sound (cloned_view x y) x y
  ∧ ordinary_names x ∧ ordinary_names y
  ∧ null_safe x y
  ∧ applyDeltaToEntities x (computeEntityDelta (cloned_view x y) x y) = y.
Proof.
  intros x y.
  assert (Hsafe : null_safe x y).
  { intros e pe ne f _ Hne Hnull. subst x y.
    apply lookup_insert_Some in Hne as [[_ <-] | [_ Hne]];
      [| apply lookup_singleton_Some in Hne as [_ <-]];
      by apply lookup_singleton_Some in Hnull as [_ ?]. }
  assert (Hx : ordinary_names x) by by_compute.
  assert (Hy : ordinary_names y) by by_compute.
  split; [apply cloned_view_sound |]. split; [exact Hx |]. split; [exact Hy |].
  split; [exact Hsafe |].
  apply (apply_compute_roundtrip_iff (cloned_view x y) x y);
    [apply cloned_view_sound | exact Hx | exact Hy | exact Hsafe].
Defined.

(** *** The base64 wrapping of the binary encoding *)

(** The bytes read back from the base64 text are the bytes that were
    encoded, so decoding the text is decoding those bytes. *)
Lemma decodeDeltaFromBase64_encodeDeltaToBase64 (msgpack_encode : FullDelta → list byte)
    (msgpack_decode : list byte → option FullDelta) (fd : FullDelta) :
  decodeDeltaFromBase64 msgpack_decode (encodeDeltaToBase64 msgpack_encode fd)
  = msgpack_decode (msgpack_encode fd).
Proof.
  unfold decodeDeltaFromBase64, encodeDeltaToBase64, encodeDelta. cbv zeta.
  by rewrite BufferFacts.from_base64_toString_base64.
Qed.

End DeltaEngineFacts.
(** * Properties of the room state *)

Module RoomFacts.
Import Room.

Lemma shouldApplyRemoteDelta_false (config : Env.config)
    (fd : DeltaEngine.FullDelta) (localSeq : Z) :
  DeltaEngine.shouldApplyRemoteDelta config fd localSeq = false ↔
  DeltaEngine.instanceId fd = Env.instanceId config ∨ DeltaEngine.seq fd ≤ localSeq.
Proof.
  unfold DeltaEngine.shouldApplyRemoteDelta.
  destruct (String.eqb_spec (DeltaEngine.instanceId fd) (Env.instanceId config));
    [by intuition |].
  destruct (Z.leb_spec (DeltaEngine.seq fd) localSeq); split; try done.
  - intros _. by right.
  - intros [? | ?]; [done | lia].
Qed.

Lemma shouldApplyRemoteDelta_true (config : Env.config)
    (fd : DeltaEngine.FullDelta) (localSeq : Z) :
  DeltaEngine.shouldApplyRemoteDelta config fd localSeq = true ↔
  DeltaEngine.instanceId fd ≠ Env.instanceId config ∧ localSeq < DeltaEngine.seq fd.
Proof.
  pose proof (shouldApplyRemoteDelta_false config fd localSeq) as H.
  destruct (DeltaEngine.shouldApplyRemoteDelta config fd localSeq).
  - split; [intros _ | done]. split.
    + intros Heq. by apply (or_introl (B := DeltaEngine.seq fd ≤ localSeq)), H in Heq.
    + destruct (Z.lt_ge_cases localSeq (DeltaEngine.seq fd)) as [? | Hle]; [done |].
      by apply (or_intror (A := DeltaEngine.instanceId fd = Env.instanceId config)),
        H in Hle.
  - split; [done |]. intros [Hne Hlt].
    destruct (proj1 H eq_refl) as [? | ?]; [done | lia].
Qed.

Lemma broadcastDelta_state (now : Z) (r : RoomState)
    (delta : gmap string (option (gmap string value))) :
  state (broadcastDelta now r delta) = state r.
Proof. unfold broadcastDelta. by destruct (DeltaEngine.isDeltaEmpty delta). Qed.

Lemma publishDeltaToRedis_state (config : Env.config) (now : Z) (r : RoomState)
    (delta : gmap string (option (gmap string value))) :
  state (publishDeltaToRedis config now r delta) = state r.
Proof. unfold publishDeltaToRedis. by destruct (isApplyingRemoteDelta r). Qed.

Lemma maybeSnapshot_state (config : Env.config) (r : RoomState) :
  state (maybeSnapshot config r) = state r.
Proof.
  unfold maybeSnapshot.
  by destruct (Env.snapshotInterval config
               <=? JS.subtract (tick (state r)) (lastSnapshotTick r)).
Qed.

(** The state an accepted remote delta leaves behind. *)
Lemma applyRemoteDelta_accept_state (config : Env.config) (now : Z)
    (r : RoomState) (fd : DeltaEngine.FullDelta) :
  (applyRemoteDelta config now r fd).2 = true →
  state (applyRemoteDelta config now r fd).1 =
    {| entities := DeltaEngine.applyDeltaToEntities
                     (entities (state r)) (DeltaEngine.delta fd);
       tick := Z.max (tick (state r)) (DeltaEngine.tick fd);
       seq := DeltaEngine.seq fd |}.
Proof.
  unfold applyRemoteDelta.
  destruct (DeltaEngine.shouldApplyRemoteDelta config fd (seq (state r)));
    simpl; [intros _ | done].
  by rewrite broadcastDelta_state.
Qed.

Lemma applyRemoteDelta_result (config : Env.config) (now : Z)
    (r : RoomState) (fd : DeltaEngine.FullDelta) :
  (applyRemoteDelta config now r fd).2 =
    DeltaEngine.shouldApplyRemoteDelta config fd (seq (state r)).
Proof.
  unfold applyRemoteDelta.
  by destruct (DeltaEngine.shouldApplyRemoteDelta config fd (seq (state r))).
Qed.

Lemma applyRemoteDelta_reject (config : Env.config) (now : Z)
    (r : RoomState) (fd : DeltaEngine.FullDelta) :
  (applyRemoteDelta config now r fd).2 = false →
  (applyRemoteDelta config now r fd).1 = r.
Proof.
  unfold applyRemoteDelta.
  by destruct (DeltaEngine.shouldApplyRemoteDelta config fd (seq (state r))).
Qed.



(** C4.  When [applyRemoteDelta] accepts [fd], the room's seq is [fd.seq]
    and its tick is the larger of its former tick and [fd.tick]. *)
Theorem applyRemoteDelta_accept_counters (config : Env.config) (now : Z)
    (r : RoomState) (fd : DeltaEngine.FullDelta) :
  (applyRemoteDelta config now r fd).2 = true →
  seq (state (applyRemoteDelta config now r fd).1) = DeltaEngine.seq fd
  ∧ tick (state (applyRemoteDelta config now r fd).1) =
      Z.max (tick (state r)) (DeltaEngine.tick fd).
Proof.
  intros Hacc. by rewrite (applyRemoteDelta_accept_state _ _ _ _ Hacc).
Qed.

(** C4 on instance A, room at [seq = 5, tick = 9], delta [seq = 6, tick = 7]
    from instance B: the room ends at [seq = 6, tick = 9]. *)
Lemma applyRemoteDelta_accept_counters_witness :
  let config := {| Env.instanceId := "A"; Env.snapshotInterval := 100 |} in
  let r := new "r1" (Some {| entities := ∅; tick := 9; seq := 5 |}) in
  let fd :=
    {| DeltaEngine.roomId := "r1"; DeltaEngine.delta := {[ "p1" := None ]};
       DeltaEngine.tick := 7; DeltaEngine.seq := 6; DeltaEngine.ts := 0;
       DeltaEngine.instanceId := "B" |} in
  (applyRemoteDelta config 0 r fd).2 = true
  ∧ seq (state (applyRemoteDelta config 0 r fd).1) = 6
  ∧ tick (state (applyRemoteDelta config 0 r fd).1) = 9.
Proof.
  intros config r fd. split; [reflexivity |].
  apply (applyRemoteDelta_accept_counters config 0 r fd). reflexivity.
Defined.

Lemma applyInput_state (config : Env.config) (now : Z) (r : RoomState)
    (input : PlayerInput) :
  state (applyInput config now r input).1 =
    {| entities :=
         JS.assign (playerId input)
           (<["lastUpdate" := VNum now]>
              (payload input
                 ∪ JS.spread (JS.get (playerId input) (entities (state r)))))
           (entities (state r));
       tick := JS.increment (tick (state r));
       seq := JS.increment (seq (state r)) |}.
Proof.
  unfold applyInput. cbv zeta. simpl.
  rewrite maybeSnapshot_state.
  match goal with
  | |- context [negb (DeltaEngine.isDeltaEmpty ?d)] =>
      destruct (negb (DeltaEngine.isDeltaEmpty d))
  end; [| done].
  by rewrite publishDeltaToRedis_state, broadcastDelta_state.
Qed.




(** C3 (as stated, refuted).  On instance A a fresh room whose tick was
    advanced five times by [incrementTick] stands at [seq = 0, tick = 5].
    It accepts the first delta of instance B, [seq = 1, tick = 1]; its tick
    stays 5, which is not at least [5 + 1].  And a room at
    [seq = tick = 2^53] keeps both through an input: [2^53 + 1] is no
    number, and [seq++] gives [2^53] again. *)
Lemma applyRemoteDelta_tick_counterexample :
  let config := {| Env.instanceId := "A"; Env.snapshotInterval := 100 |} in
  let r := Nat.iter 5 (λ r, (incrementTick r).1) (new "r1" None) in
  let full := new "r1" (Some {| entities := ∅; tick := 2 ^ 53; seq := 2 ^ 53 |}) in
  let input :=
    {| playerId := "p1"; payload := {[ "x" := VNum 10 ]}; timestamp := None |} in
  let fd :=
    {| DeltaEngine.roomId := "r1";
       DeltaEngine.delta := {[ "p1" := Some {[ "x" := VNum 1 ]} ]};
       DeltaEngine.tick := 1; DeltaEngine.seq := 1; DeltaEngine.ts := 0;
       DeltaEngine.instanceId := "B" |} in
  seq (state r) = 0 ∧ tick (state r) = 5
  ∧ (applyRemoteDelta config 0 r fd).2 = true
  ∧ tick (state (applyRemoteDelta config 0 r fd).1) = 5
  ∧ ¬ (tick (state r) + 1 ≤ tick (state (applyRemoteDelta config 0 r fd).1))
  ∧ seq (state (applyInput config 0 full input).1) = 2 ^ 53
  ∧ tick (state (applyInput config 0 full input).1) = 2 ^ 53
  ∧ ¬ (seq (state full) < seq (state (applyInput config 0 full input).1)).
Proof.
  intros config r full input fd. do 4 (split; [reflexivity |]).
  split; [intros Hle; vm_compute in Hle; by apply Hle |].
  do 2 (split; [reflexivity |]).
  intros Hlt. vm_compute in Hlt. discriminate Hlt.
Qed.

(** C3 (amended).  [applyInput] raises seq and tick by one each, as long as
    they stay within [2^53].  An
    accepted [applyRemoteDelta] raises seq strictly and never lowers tick;
    it raises tick (by at least one) exactly when [fd.tick] is above the
    room's tick, which is the case whenever the room's tick is at most its
    seq and [fd.tick] is at least [fd.seq]. *)
Theorem counters_after_success (config : Env.config) (now : Z) (r : RoomState) :
  (∀ input,
     JS.exact (seq (state r) + 1) → JS.exact (tick (state r) + 1) →
     seq (state r) < seq (state (applyInput config now r input).1)
     ∧ tick (state r) + 1 ≤ tick (state (applyInput config now r input).1))
  ∧ (∀ fd,
       (applyRemoteDelta config now r fd).2 = true →
       seq (state r) < seq (state (applyRemoteDelta config now r fd).1)
       ∧ tick (state r) ≤ tick (state (applyRemoteDelta config now r fd).1)
       ∧ (tick (state r) + 1 ≤ tick (state (applyRemoteDelta config now r fd).1)
          ↔ tick (state r) < DeltaEngine.tick fd)
       ∧ (tick (state r) ≤ seq (state r) →
          DeltaEngine.seq fd ≤ DeltaEngine.tick fd →
          tick (state r) + 1 ≤ tick (state (applyRemoteDelta config now r fd).1))).
Proof.
  split.
  - intros input Hseq Htick. rewrite applyInput_state. simpl.
    rewrite !JSFacts.increment_exact by done. lia.
  - intros fd Hacc. rewrite (applyRemoteDelta_accept_state _ _ _ _ Hacc). simpl.
    rewrite applyRemoteDelta_result in Hacc.
    apply shouldApplyRemoteDelta_true in Hacc as [_ Hlt]. lia.
Qed.

(** C3 (amended) on a fresh room: an input, and the delta [seq = 1,
    tick = 1] of another instance. *)
Lemma counters_after_success_witness :
  let config := {| Env.instanceId := "A"; Env.snapshotInterval := 100 |} in
  let r := new "r1" None in
  let input :=
    {| playerId := "p1"; payload := {[ "x" := VNum 10 ]}; timestamp := None |} in
  let fd :=
    {| DeltaEngine.roomId := "r1";
       DeltaEngine.delta := {[ "p1" := Some {[ "x" := VNum 1 ]} ]};
       DeltaEngine.tick := 1; DeltaEngine.seq := 1; DeltaEngine.ts := 0;
       DeltaEngine.instanceId := "B" |} in
  0 < seq (state (applyInput config 7 r input).1)
  ∧ (applyRemoteDelta config 7 r fd).2 = true
  ∧ 0 < seq (state (applyRemoteDelta config 7 r fd).1)
  ∧ 0 + 1 ≤ tick (state (applyRemoteDelta config 7 r fd).1).
Proof.
  intros config r input fd.
  destruct (counters_after_success config 7 r) as [Hin Hrem].
  split; [apply (Hin input); by_compute |]. split; [reflexivity |].
  destruct (Hrem fd eq_refl) as (Hseq & _ & _ & Htick).
  split; [exact Hseq |]. apply Htick; simpl; lia.
Defined.

(** *** The scenarios of the specification

    S1: on a fresh room the input [{p1, {x: 10, y: 12}}] at time 100 leaves
    [{p1: {x: 10, y: 12, lastUpdate: 100}}] at [tick = 1, seq = 1] and
    returns that entity as the delta.  S2: the input [{p1, {x: 11}}] at time
    101 then returns [{p1: {x: 11, lastUpdate: 101}}] at [tick = 2, seq = 2]. *)
Example scenario_single_client :
  let config := {| Env.instanceId := "A"; Env.snapshotInterval := 100 |} in
  let first :=
    applyInput config 100 (new "r1" None)
      {| playerId := "p1"; payload := {[ "x" := VNum 10; "y" := VNum 12 ]};
         timestamp := None |} in
  let second :=
    applyInput config 101 first.1
      {| playerId := "p1"; payload := {[ "x" := VNum 11 ]}; timestamp := None |} in
  state first.1 =
    {| entities := {[ "p1" := {[ "x" := VNum 10; "y" := VNum 12;
                                 "lastUpdate" := VNum 100 ]} ]};
       tick := 1; seq := 1 |}
  ∧ first.2 = {[ "p1" := Some {[ "x" := VNum 10; "y" := VNum 12;
                                 "lastUpdate" := VNum 100 ]} ]}
  ∧ second.2 = {[ "p1" := Some {[ "x" := VNum 11; "lastUpdate" := VNum 101 ]} ]}
  ∧ tick (state second.1) = 2 ∧ seq (state second.1) = 2.
Proof.
  intros config first second. repeat split; by_compute.
Qed.




(** The entries of a diff against a [cloneState()] copy: an entity that is
    the same in both has none. *)
Lemma clone_diff_unchanged (x y : gmap string (gmap string value)) (e : string) :
  x !! e = y !! e →
  DeltaEngine.computeEntityDelta (DeltaEngine.cloned_view x y) x y !! e = None.
Proof.
  intros Hsame. rewrite DeltaEngineFacts.computeEntityDelta_lookup.
  destruct (String.eqb e "__proto__"); [done |].
  unfold JS.get. rewrite Hsame.
  destruct (y !! e) as [entity |] eqn:Hy; [| done].
  cbn [DeltaEngine.same_text]. rewrite DeltaEngineFacts.cloned_view_same_json.
  by rewrite bool_decide_eq_true_2 by congruence.
Qed.


(** Removing one entity from a cloned state is diffed as [{id: null}],
    unless the id is a name of [Object.prototype]: then [id in next] holds
    after the removal too, and the diff is empty. *)
Lemma computeEntityDelta_delete (ents : gmap string (gmap string value))
    (k : string) :
  DeltaEngine.computeEntityDelta
    (DeltaEngine.cloned_view ents (delete k ents)) ents (delete k ents)
  = if bool_decide (is_Some (ents !! k)) && negb (JS.inherited k)
    then {[ k := None ]} else ∅.
Proof.
  apply map_eq. intros e.
  destruct (decide (k = e)) as [-> | Hne].
  - rewrite DeltaEngineFacts.computeEntityDelta_lookup, lookup_delete_eq.
    destruct (ents !! e) as [entity |] eqn:He; cbn [bool_decide andb].
    + rewrite bool_decide_eq_true_2 by eauto. cbn [andb].
      destruct (JS.inherited e) eqn:Hin; cbn [negb].
      * by destruct (String.eqb e "__proto__").
      * rewrite lookup_singleton_eq.
        apply JSFacts.ordinary_not_proto in Hin.
        by destruct (String.eqb_spec e "__proto__").
    + rewrite bool_decide_eq_false_2 by (by intros [? ?]).
      by destruct (String.eqb e "__proto__").
  - rewrite clone_diff_unchanged by (by rewrite lookup_delete_ne).
    destruct (_ && _); [by rewrite lookup_singleton_ne | done].
Qed.

Lemma removeEntity_deletes (r : RoomState) (playerId : string) :
  is_Some (JS.get playerId (entities (state r))) →
  state (removeEntity r playerId).1 =
    {| entities := delete playerId (entities (state r));
       tick := JS.increment (tick (state r));
       seq := JS.increment (seq (state r)) |}
  ∧ (removeEntity r playerId).2 =
      if bool_decide (is_Some (entities (state r) !! playerId))
         && negb (JS.inherited playerId)
      then {[ playerId := None ]} else ∅.
Proof.
  intros [entity Hent]. unfold removeEntity. simpl.
  unfold cloneState. rewrite Hent. simpl.
  split; [done |]. apply computeEntityDelta_delete.
Qed.

(** Without an entity, and for an id that is no name of [Object.prototype],
    [removeEntity] changes nothing but [previousState]. *)
Lemma removeEntity_without (r : RoomState) (playerId : string) :
  JS.get playerId (entities (state r)) = None →
  (removeEntity r playerId).2 = ∅
  ∧ state (removeEntity r playerId).1 = state r.
Proof.
  intros Hout. unfold removeEntity. simpl. unfold cloneState. by rewrite Hout.
Qed.




(** C10 at [playerId = toString].  The room [{p2: {x: 3}}] at
    [seq = 4, tick = 4] holds no entity of that id, but
    [this.state.entities[playerId]] reads the method that every object
    inherits, which is truthy: [removeEntity] takes the branch of an
    entity that is there, returns the empty delta and leaves the room at
    [seq = 5, tick = 5]. *)
Theorem removeEntity_absent_inherited :
  let r :=
    new "r1" (Some {| entities := {[ "p2" := {[ "x" := VNum 3 ]} ]};
                      tick := 4; seq := 4 |}) in
  entities (state r) !! "toString" = None
  ∧ (removeEntity r "toString").2 = ∅
  ∧ state (removeEntity r "toString").1 =
      {| entities := {[ "p2" := {[ "x" := VNum 3 ]} ]}; tick := 5; seq := 5 |}
  ∧ state (removeEntity r "toString").1 ≠ state r.
Proof.
  intros r. split; [reflexivity |]. split; [by_compute |].
  assert (Hstate : state (removeEntity r "toString").1 =
            {| entities := {[ "p2" := {[ "x" := VNum 3 ]} ]}; tick := 5; seq := 5 |}).
  { vm_compute. reflexivity. }
  split; [exact Hstate |]. rewrite Hstate. intros Heq.
  apply (f_equal seq) in Heq. discriminate Heq.
Qed.

(** *** The output log *)

Lemma deltas_sent_app (l1 l2 : list effect) :
  deltas_sent (l1 ++ l2) = deltas_sent l1 ++ deltas_sent l2.
Proof. apply List.filter_app. Qed.

Lemma maybeSnapshot_deltas_sent (config : Env.config) (r : RoomState) :
  deltas_sent (sent (maybeSnapshot config r)) = deltas_sent (sent r).
Proof.
  unfold maybeSnapshot.
  destruct (Env.snapshotInterval config
            <=? JS.subtract (tick (state r)) (lastSnapshotTick r));
    [| done].
  simpl. rewrite deltas_sent_app. simpl. apply app_nil_r.
Qed.

(** What [applyInput] hands out for a delta that is not empty. *)
Lemma applyInput_sent (config : Env.config) (now : Z) (r : RoomState)
    (input : PlayerInput) :
  let result := applyInput config now r input in
  deltas_sent (sent result.1) =
    deltas_sent (sent r) ++
      (if DeltaEngine.isDeltaEmpty result.2 then []
       else Broadcast {| msgRoomId := roomId r;
                         msgTick := tick (state result.1);
                         msgSeq := seq (state result.1);
                         msgDelta := result.2;
                         msgTimestamp := now |}
            :: (if isApplyingRemoteDelta r then []
                else [Publish (DeltaEngine.createDeltaPayload config now (roomId r)
                                 result.2 (tick (state result.1))
                                 (seq (state result.1)))])).
Proof.
  intros result. subst result. rewrite applyInput_state.
  unfold applyInput. cbv zeta. cbn [fst snd].
  rewrite maybeSnapshot_deltas_sent.
  match goal with
  | |- context [negb (DeltaEngine.isDeltaEmpty ?d)] =>
      destruct (DeltaEngine.isDeltaEmpty d) eqn:Hempty
  end; cbn [negb].
  - cbn. by rewrite app_nil_r.
  - unfold publishDeltaToRedis, broadcastDelta. rewrite Hempty. cbn.
    destruct (isApplyingRemoteDelta r); cbn.
    + by rewrite deltas_sent_app.
    + rewrite !deltas_sent_app. cbn. by rewrite <- app_assoc.
Qed.

(** C9 (as stated, refuted).  A room at [seq = tick = 2^53] keeps both
    through an input, whose delta is sent under [2^53] again. *)
Lemma applyInput_empty_delta_counterexample :
  let config := {| Env.instanceId := "A"; Env.snapshotInterval := 100 |} in
  let full := new "r1" (Some {| entities := ∅; tick := 2 ^ 53; seq := 2 ^ 53 |}) in
  let input :=
    {| playerId := "p1"; payload := {[ "x" := VNum 10 ]}; timestamp := None |} in
  seq (state (applyInput config 100 full input).1) = seq (state full)
  ∧ tick (state (applyInput config 100 full input).1) = tick (state full)
  ∧ seq (state (applyInput config 100 full input).1) ≠ seq (state full) + 1.
Proof.
  intros config full input. split; [reflexivity |]. split; [reflexivity |].
  intros Heq. vm_compute in Heq. discriminate Heq.
Qed.

(** C9 (amended).  For a player id that is no name of [Object.prototype],
    and seq and tick that stay within [2^53], [applyInput] raises seq and
    tick by one whether or not the delta it computes is empty.  For an
    empty delta it sends nothing; otherwise it broadcasts the delta and
    publishes it, both under the new seq and tick. *)
Theorem applyInput_empty_delta (config : Env.config) (now : Z) (r : RoomState)
    (input : PlayerInput) :
  JS.inherited (playerId input) = false →
  JS.exact (seq (state r) + 1) → JS.exact (tick (state r) + 1) →
  let result := applyInput config now r input in
  seq (state result.1) = seq (state r) + 1
  ∧ tick (state result.1) = tick (state r) + 1
  ∧ (DeltaEngine.isDeltaEmpty result.2 = true →
     deltas_sent (sent result.1) = deltas_sent (sent r))
  ∧ (DeltaEngine.isDeltaEmpty result.2 = false →
     isApplyingRemoteDelta r = false →
     deltas_sent (sent result.1) =
       deltas_sent (sent r) ++
         [Broadcast {| msgRoomId := roomId r;
                       msgTick := tick (state r) + 1;
                       msgSeq := seq (state r) + 1;
                       msgDelta := result.2;
                       msgTimestamp := now |};
          Publish (DeltaEngine.createDeltaPayload config now (roomId r)
                     result.2 (tick (state r) + 1) (seq (state r) + 1))]).
Proof.
  intros _ Hseq Htick result. subst result.
  pose proof (applyInput_sent config now r input) as Hsent. cbv zeta in Hsent.
  rewrite applyInput_state in Hsent. cbn [seq tick] in Hsent.
  rewrite !JSFacts.increment_exact in Hsent by done.
  split; [rewrite applyInput_state; cbn [seq]; by rewrite JSFacts.increment_exact |].
  split; [rewrite applyInput_state; cbn [tick]; by rewrite JSFacts.increment_exact |].
  split.
  - intros Hempty. rewrite Hsent, Hempty. apply app_nil_r.
  - intros Hempty Hflag. by rewrite Hsent, Hempty, Hflag.
Qed.

(** C9 at a repeated input: the room holds [p1 = {x: 10, lastUpdate: 100}]
    at [seq = 1], and the input [{p1, {x: 10}}] arrives again within the
    same millisecond.  The delta is empty and nothing is sent, yet the room
    moves to [seq = 2, tick = 2]. *)
Lemma applyInput_empty_delta_witness :
  let config := {| Env.instanceId := "A"; Env.snapshotInterval := 100 |} in
  let input :=
    {| playerId := "p1"; payload := {[ "x" := VNum 10 ]}; timestamp := None |} in
  let r := (applyInput config 100 (new "r1" None) input).1 in
  JS.inherited (playerId input) = false
  ∧ JS.exact (seq (state r) + 1) ∧ JS.exact (tick (state r) + 1)
  ∧ DeltaEngine.isDeltaEmpty (applyInput config 100 r input).2 = true
  ∧ seq (state r) = 1
  ∧ seq (state (applyInput config 100 r input).1) = 2
  ∧ tick (state (applyInput config 100 r input).1) = 2
  ∧ deltas_sent (sent (applyInput config 100 r input).1) = deltas_sent (sent r).
Proof.
  intros config input r.
  assert (Hempty : DeltaEngine.isDeltaEmpty (applyInput config 100 r input).2 = true)
    by (vm_compute; reflexivity).
  assert (Hs1 : seq (state r) = 1) by (vm_compute; reflexivity).
  assert (Ht1 : tick (state r) = 1) by (vm_compute; reflexivity).
  assert (Hseq : JS.exact (seq (state r) + 1)) by (rewrite Hs1; by_compute).
  assert (Htick : JS.exact (tick (state r) + 1)) by (rewrite Ht1; by_compute).
  destruct (applyInput_empty_delta config 100 r input eq_refl Hseq Htick)
    as (Hs & Ht & Hnone & _).
  split; [reflexivity |]. split; [exact Hseq |]. split; [exact Htick |].
  split; [exact Hempty |]. split; [exact Hs1 |].
  split; [by rewrite Hs, Hs1 |]. split; [by rewrite Ht, Ht1 |].
  exact (Hnone Hempty).
Defined.

(** *** One call, and what it adds to the log *)

Lemma isDeltaEmpty_singleton (k : string) (c : option (gmap string value)) :
  DeltaEngine.isDeltaEmpty {[ k := c ]} = false.
Proof. unfold DeltaEngine.isDeltaEmpty. by rewrite map_size_singleton. Qed.

Lemma removeEntity_flag (r : RoomState) (playerId : string) :
  isApplyingRemoteDelta (removeEntity r playerId).1 = isApplyingRemoteDelta r
  ∧ sent (removeEntity r playerId).1 = sent r
  ∧ roomId (removeEntity r playerId).1 = roomId r
  ∧ lastSnapshotTick (removeEntity r playerId).1 = lastSnapshotTick r
  ∧ clients (removeEntity r playerId).1 = clients r.
Proof.
  unfold removeEntity. cbv zeta. unfold cloneState. simpl.
  by destruct (JS.get playerId (entities (state r))).
Qed.

Lemma applyInput_log (config : Env.config) (now : Z) (r : RoomState)
    (input : PlayerInput) :
  let result := applyInput config now r input in
  ∃ new,
    sent result.1 = sent r ++ new
    ∧ isApplyingRemoteDelta result.1 = isApplyingRemoteDelta r
    ∧ broadcast_seqs new =
        (if DeltaEngine.isDeltaEmpty result.2 then []
         else [JS.increment (seq (state r))])
    ∧ publish_seqs new =
        (if DeltaEngine.isDeltaEmpty result.2 || isApplyingRemoteDelta r
         then [] else [JS.increment (seq (state r))]).
Proof.
  unfold applyInput. cbv zeta. cbn [fst snd].
  match goal with
  | |- context [negb (DeltaEngine.isDeltaEmpty ?d)] =>
      destruct (DeltaEngine.isDeltaEmpty d) eqn:Hempty
  end; cbn [negb orb]; unfold maybeSnapshot.
  - match goal with |- context [if ?c then saveSnapshot _ else _] => destruct c end;
      cbn; eexists; (split; [reflexivity || (symmetry; apply app_nil_r) |]); done.
  - unfold publishDeltaToRedis, broadcastDelta. rewrite Hempty.
    cbn [state emit isApplyingRemoteDelta with_state with_previousState].
    destruct (isApplyingRemoteDelta r) eqn:Hflag;
      match goal with |- context [if ?c then saveSnapshot _ else _] => destruct c end;
      cbn; rewrite <- ?app_assoc; eexists; (split; [reflexivity |]);
      cbn; rewrite ?Hflag; done.
Qed.

(** [removeClient] sends nothing and keeps seq; or it takes the next seq
    and sends the removal under it; or, for a player id that is a name of
    [Object.prototype], it takes the next seq and sends nothing. *)
Lemma removeClient_log (config : Env.config) (now : Z) (r : RoomState)
    (socket : KasagiSocket) :
  let r' := removeClient config now r socket in
  ∃ new,
    sent r' = sent r ++ new
    ∧ isApplyingRemoteDelta r' = isApplyingRemoteDelta r
    ∧ ((seq (state r') = seq (state r)
        ∧ broadcast_seqs new = [] ∧ publish_seqs new = [])
       ∨ (seq (state r') = JS.increment (seq (state r))
          ∧ broadcast_seqs new = [JS.increment (seq (state r))]
          ∧ publish_seqs new =
              (if isApplyingRemoteDelta r then []
               else [JS.increment (seq (state r))]))
       ∨ (seq (state r') = JS.increment (seq (state r))
          ∧ broadcast_seqs new = [] ∧ publish_seqs new = []
          ∧ ∃ pid, socketPlayerId socket = Some pid ∧ JS.inherited pid = true)).
Proof.
  cbv zeta.
  assert (Hnone : ∃ new, sent r = sent r ++ new
    ∧ isApplyingRemoteDelta r = isApplyingRemoteDelta r
    ∧ ((seq (state r) = seq (state r)
        ∧ broadcast_seqs new = [] ∧ publish_seqs new = [])
       ∨ (seq (state r) = JS.increment (seq (state r))
          ∧ broadcast_seqs new = [JS.increment (seq (state r))]
          ∧ publish_seqs new =
              (if isApplyingRemoteDelta r then []
               else [JS.increment (seq (state r))]))
       ∨ (seq (state r) = JS.increment (seq (state r))
          ∧ broadcast_seqs new = [] ∧ publish_seqs new = []
          ∧ ∃ pid, socketPlayerId socket = Some pid ∧ JS.inherited pid = true))).
  { exists []. rewrite app_nil_r. split; [done |]. split; [done |]. by left. }
  unfold removeClient. cbv zeta.
  destruct (socketPlayerId socket) as [pid |] eqn:Hpid; [| exact Hnone].
  destruct (negb (String.eqb pid "")); cbn [andb]; [| exact Hnone].
  case_bool_decide as Hkey; [| exact Hnone].
  clear Hnone. cbn [with_clients state] in Hkey.
  destruct (removeEntity_deletes (with_clients (clients r ∖ {[socketId socket]}) r)
              pid Hkey) as (Hstate & Hdelta).
  apply (f_equal seq) in Hstate as Hseq. cbn [seq] in Hseq. clear Hstate.
  destruct (removeEntity_flag (with_clients (clients r ∖ {[socketId socket]}) r) pid)
    as (Hflag & Hsent & _).
  destruct (removeEntity (with_clients (clients r ∖ {[socketId socket]}) r) pid)
    as [r1 delta].
  cbn [fst snd with_clients state sent isApplyingRemoteDelta] in *. subst delta.
  destruct (bool_decide (is_Some (entities (state r) !! pid)) && negb (JS.inherited pid))
    eqn:Hown.
  - rewrite isDeltaEmpty_singleton. cbn [negb].
    unfold publishDeltaToRedis, broadcastDelta. rewrite isDeltaEmpty_singleton.
    cbn [state emit isApplyingRemoteDelta]. rewrite Hflag.
    destruct (isApplyingRemoteDelta r) eqn:Hr;
      cbn [sent emit state isApplyingRemoteDelta];
      rewrite Hsent, Hseq, <- ?app_assoc; eexists; (split; [reflexivity |]);
      (split; [done |]); right; left; done.
  - cbn. exists []. rewrite app_nil_r. split; [done |]. split; [done |].
    right. right. split; [done |]. split; [done |]. split; [done |].
    exists pid. split; [done |].
    apply andb_false_iff in Hown as [Hown | Hown].
    + apply bool_decide_eq_false in Hown. destruct Hkey as [o Hget].
      unfold JS.get in Hget. destruct (entities (state r) !! pid); [by destruct Hown |].
      by destruct (JS.inherited pid).
    + by apply negb_false_iff in Hown.
Qed.

Lemma applyRemoteDelta_log (config : Env.config) (now : Z) (r : RoomState)
    (fd : DeltaEngine.FullDelta) :
  let r' := (applyRemoteDelta config now r fd).1 in
  ∃ new,
    sent r' = sent r ++ new
    ∧ (isApplyingRemoteDelta r = false → isApplyingRemoteDelta r' = false)
    ∧ seq (state r) ≤ seq (state r')
    ∧ publish_seqs new = []
    ∧ (broadcast_seqs new = []
       ∨ broadcast_seqs new = [seq (state r')] ∧ seq (state r) < seq (state r')).
Proof.
  cbv zeta. unfold applyRemoteDelta.
  destruct (DeltaEngine.shouldApplyRemoteDelta config fd (seq (state r))) eqn:Hok;
    cbn [negb fst].
  - apply shouldApplyRemoteDelta_true in Hok as [_ Hlt].
    unfold broadcastDelta.
    destruct (DeltaEngine.isDeltaEmpty (DeltaEngine.delta fd)); cbn.
    + exists []. rewrite app_nil_r. repeat split; try done; try lia. by left.
    + eexists. split; [reflexivity |]. cbn.
      repeat split; try done; try lia. right. split; [done | lia].
  - exists []. rewrite app_nil_r. repeat split; try done; try lia. by left.
Qed.

(** *** Runs *)

Lemma step_prefix (config : Env.config) (r : RoomState) (call : Z * op) :
  ∃ new, sent (step config r call) = sent r ++ new.
Proof.
  destruct call as [now [socket | input | socket | fd |]]; cbn [step].
  - exists []. simpl. by rewrite app_nil_r.
  - destruct (applyInput_log config now r input) as (new & Hnew & _). eauto.
  - destruct (removeClient_log config now r socket) as (new & Hnew & _). eauto.
  - destruct (applyRemoteDelta_log config now r fd) as (new & Hnew & _). eauto.
  - exists []. simpl. by rewrite app_nil_r.
Qed.

Lemma run_prefix (config : Env.config) (calls : list (Z * op)) (r : RoomState) :
  ∃ new, sent (run config r calls) = sent r ++ new.
Proof.
  revert r. induction calls as [| call calls IH]; intros r.
  - exists []. simpl. by rewrite app_nil_r.
  - destruct (step_prefix config r call) as [n1 H1].
    destruct (IH (step config r call)) as [n2 H2].
    exists (n1 ++ n2). cbn [run foldl] in *.
    unfold run in H2. by rewrite H2, H1, app_assoc.
Qed.

Lemma emitted_step (config : Env.config) (r : RoomState) (call : Z * op) :
  sent (step config r call) = sent r ++ emitted config r [call].
Proof.
  unfold emitted. cbn [run foldl].
  destruct (step_prefix config r call) as [new ->].
  by rewrite drop_app_length.
Qed.

Lemma emitted_cons (config : Env.config) (r : RoomState) (call : Z * op)
    (calls : list (Z * op)) :
  emitted config r (call :: calls) =
    emitted config r [call] ++ emitted config (step config r call) calls.
Proof.
  unfold emitted at 1 3. cbn [run foldl]. fold (run config (step config r call) calls).
  destruct (run_prefix config calls (step config r call)) as [n2 ->].
  rewrite drop_app_length. rewrite emitted_step.
  by rewrite <- app_assoc, drop_app_length.
Qed.

Lemma emitted_nil (config : Env.config) (r : RoomState) :
  emitted config r [] = [].
Proof. unfold emitted. cbn [run foldl]. apply drop_all. Qed.

(** A call that leaves the log as it is. *)
Lemma emitted_silent (config : Env.config) (r : RoomState) (call : Z * op) :
  sent (step config r call) = sent r → emitted config r [call] = [].
Proof.
  intros Hsent. apply (app_inv_head (sent r)).
  by rewrite app_nil_r, <- emitted_step.
Qed.









Section channel.
Variable config : Env.config.
(** One of the two channels: [broadcast_seq] or [publish_seq]. *)
Variable channel : effect → option Z.
Hypothesis channel_step : ∀ r call,
  omap channel (emitted config r [call]) = []
  ∨ omap channel (emitted config r [call]) = [seq (state (step config r call))]
    ∧ (JS.exact (seq (state r) + 1) → seq (state r) < seq (state (step config r call))).

End channel.




End RoomFacts.
(** * Further properties of the delta engine *)

Module DeltaEngineExtras.
Import DeltaEngine.

(** An entity whose field diff is empty has not changed. *)
Lemma computeFieldDelta_empty (view : js_view) (e : string)
    (prevEntity nextEntity : gmap string value) :
  JS.ordinary prevEntity → JS.ordinary nextEntity →
  (∀ f a b, prevEntity !! f = Some a → nextEntity !! f = Some b →
            same_ref view e f = true → a = b) →
  computeFieldDelta view e (JS.Plain prevEntity) nextEntity = ∅ →
  prevEntity = nextEntity.
Proof.
  intros Hprev Hnext Href Hempty. apply map_eq. intros f.
  apply (f_equal (λ m, m !! f)) in Hempty.
  rewrite DeltaEngineFacts.computeFieldDelta_lookup_plain, lookup_empty in Hempty
    by done.
  destruct (nextEntity !! f) as [nv |] eqn:Hn.
  - destruct (prevEntity !! f) as [pv |] eqn:Hp; simpl in Hempty; [| done].
    destruct (strict_eq view e f pv nv) eqn:Heq; simpl in Hempty; [| done].
    f_equal. eapply DeltaEngineFacts.strict_eq_sound; [| exact Heq]. eauto.
  - by destruct (prevEntity !! f).
Qed.

(** Under a clone diff an entity is left out exactly when it is unchanged. *)
Lemma clone_diff_None (x y : gmap string (gmap string value)) (e : string) :
  ordinary_names x → ordinary_names y →
  computeEntityDelta (cloned_view x y) x y !! e = None ↔ x !! e = y !! e.
Proof.
  intros [Hx Hxf] [Hy Hyf].
  rewrite DeltaEngineFacts.computeEntityDelta_lookup_plain by done.
  destruct (y !! e) as [ne |] eqn:Hye, (x !! e) as [pe |] eqn:Hxe;
    try (split; [done | done]).
  rewrite DeltaEngineFacts.cloned_view_same_json, Hxe, Hye.
  case_bool_decide as Heq; [done |].
  destruct (0 <? size (computeFieldDelta (cloned_view x y) e (JS.Plain pe) ne))%nat
    eqn:Hsize; [done |].
  split; [intros _ | done]. exfalso. apply Heq. f_equal.
  apply (computeFieldDelta_empty (cloned_view x y) e);
    [exact (Hxf e pe Hxe) | exact (Hyf e ne Hye) | done |].
  apply map_size_empty_iff. apply Nat.ltb_ge in Hsize. lia.
Qed.


(** X1.  Whatever the diff observes of identity and key order, and for
    a [next] whose entity ids are no names of [Object.prototype], the diff
    marks an entity [null] exactly when [prev] holds it, [next] does not,
    and its id is no name of [Object.prototype] (such an id is [in next]
    by inheritance, and its removal goes unmarked). *)
Theorem removed_entities_are_marked (view : js_view)
    (prev next : gmap string (gmap string value)) (e : string) :
  JS.ordinary next →
  computeEntityDelta view prev next !! e = Some None
  ↔ JS.inherited e = false ∧ is_Some (prev !! e) ∧ next !! e = None.
Proof.
  intros Hnext. rewrite DeltaEngineFacts.computeEntityDelta_lookup.
  destruct (String.eqb_spec e "__proto__") as [-> | He].
  { split; [done | by intros [? _]]. }
  destruct (next !! e) as [ne |] eqn:Hn.
  - split; [| by intros (_ & _ & ?)].
    destruct (JS.get e prev) as [pe |]; [| done].
    destruct (same_text view e pe ne); [done |].
    by destruct (0 <? size (computeFieldDelta view e pe ne))%nat.
  - destruct (prev !! e) as [pe |] eqn:Hp.
    + destruct (JS.inherited e); [split; [done | by intros [? _]] |].
      split; [by eauto | done].
    + split; [done | by intros (_ & [? ?] & _)].
Qed.

(** X1 for the departure of [p1]. *)
Lemma removed_entities_are_marked_witness :
  let prev : gmap string (gmap string value) := {[ "p1" := {[ "x" := VNum 1 ]} ]} in
  let next : gmap string (gmap string value) := ∅ in
  JS.ordinary next
  ∧ (JS.inherited "p1" = false ∧ is_Some (prev !! "p1") ∧ next !! "p1" = None)
  ∧ computeEntityDelta (cloned_view prev next) prev next !! "p1" = Some None.
Proof.
  intros prev next.
  assert (Hnext : JS.ordinary next) by by_compute.
  assert (H : JS.inherited "p1" = false ∧ is_Some (prev !! "p1") ∧ next !! "p1" = None).
  { split; [reflexivity |]. split; [| reflexivity].
    exists {[ "x" := VNum 1 ]}. reflexivity. }
  split; [exact Hnext |]. split; [exact H |].
  exact (proj2 (removed_entities_are_marked (cloned_view prev next) prev next "p1"
                  Hnext) H).
Defined.

(** X2.  For a [next] whose entity ids are no names of [Object.prototype]
    and an id that [prev] does not hold, the entry of the delta is the
    whole entity of [next], fields holding [null] included (and there is no
    entry when [next] does not hold the id either). *)
Theorem new_entities_are_sent_whole (view : js_view)
    (prev next : gmap string (gmap string value)) (e : string) :
  JS.ordinary next →
  prev !! e = None →
  computeEntityDelta view prev next !! e = Some <$> next !! e.
Proof.
  intros Hnext Hp. rewrite DeltaEngineFacts.computeEntityDelta_lookup, Hp.
  destruct (next !! e) as [ne |] eqn:Hn.
  - apply Hnext in Hn as Hin. rewrite JSFacts.get_ordinary, Hp by done.
    apply JSFacts.ordinary_not_proto in Hin.
    by destruct (String.eqb_spec e "__proto__").
  - by destruct (String.eqb e "__proto__").
Qed.

(** X2 at [prev = {p1: {x: 1}}], [next = {p1: {x: 1}, p2: {hp: null}}]. *)
Lemma new_entities_are_sent_whole_witness :
  let prev : gmap string (gmap string value) := {[ "p1" := {[ "x" := VNum 1 ]} ]} in
  let next : gmap string (gmap string value) :=
    {[ "p1" := {[ "x" := VNum 1 ]}; "p2" := {[ "hp" := VNull ]} ]} in
  JS.ordinary next
  ∧ prev !! "p2" = None
  ∧ computeEntityDelta (cloned_view prev next) prev next !! "p2"
    = Some (Some {[ "hp" := VNull ]}).
Proof.
  intros prev next.
  assert (Hnext : JS.ordinary next) by by_compute.
  assert (Hp : prev !! "p2" = None) by reflexivity.
  split; [exact Hnext |]. split; [exact Hp |].
  exact (new_entities_are_sent_whole (cloned_view prev next) prev next "p2" Hnext Hp).
Defined.






(** X5.  For a delta whose entity ids are no names of [Object.prototype],
    [applyDeltaToEntities] overlays the delta on the entities: an id the
    delta does not mention keeps its entity, an id mapped to [null] loses
    it, an id that is new takes the changes as they are ([null] fields
    included), and an entity that exists takes every field of the changes,
    where [null] removes the field, and keeps its other fields; only a
    field [__proto__] that the entity does not have is not stored (the
    assignment replaces the prototype of the entity). *)
Theorem applyDeltaToEntities_overlay (entities : gmap string (gmap string value))
    (delta : gmap string (option (gmap string value))) (e : string) :
  JS.ordinary delta →
  match delta !! e, entities !! e with
  | None, _ => applyDeltaToEntities entities delta !! e = entities !! e
  | Some None, _ => applyDeltaToEntities entities delta !! e = None
  | Some (Some changes), None =>
      applyDeltaToEntities entities delta !! e = Some changes
  | Some (Some changes), Some entity =>
      ∃ merged,
        applyDeltaToEntities entities delta !! e = Some merged
        ∧ ∀ f, merged !! f =
            match changes !! f with
            | Some VNull => None
            | Some v =>
                if String.eqb f "__proto__" && bool_decide (entity !! f = None)
                then None else Some v
            | None => entity !! f
            end
  end.
Proof.
  intros Hdelta. rewrite DeltaEngineFacts.applyDeltaToEntities_lookup_plain by done.
  destruct (delta !! e) as [[changes |] |]; [| done | done].
  destruct (entities !! e) as [entity |]; [| done].
  eexists. split; [done |]. intros f.
  rewrite DeltaEngineFacts.applyFieldChanges_lookup.
  destruct (changes !! f) as [v |]; [| done].
  destruct (entity !! f) eqn:Hf.
  - rewrite bool_decide_eq_false_2 by done. rewrite andb_false_r. by destruct v.
  - rewrite bool_decide_eq_true_2 by done. rewrite andb_true_r.
    destruct v; cbn [is_null]; try done; by destruct (String.eqb f "__proto__").
Qed.

(** X5 for the delta [{p1: {x: 11, y: null}}] on [{p1: {x: 10, y: 12}}]. *)
Lemma applyDeltaToEntities_overlay_witness :
  let entities : gmap string (gmap string value) :=
    {[ "p1" := {[ "x" := VNum 10; "y" := VNum 12 ]} ]} in
  let delta : gmap string (option (gmap string value)) :=
    {[ "p1" := Some {[ "x" := VNum 11; "y" := VNull ]} ]} in
  JS.ordinary delta
  ∧ ∃ merged,
      applyDeltaToEntities entities delta !! "p1" = Some merged
      ∧ merged !! "x" = Some (VNum 11) ∧ merged !! "y" = None.
Proof.
  intros entities delta.
  assert (Hdelta : JS.ordinary delta) by by_compute.
  split; [exact Hdelta |].
  destruct (applyDeltaToEntities_overlay entities delta "p1" Hdelta)
    as (merged & Hmerged & Hf).
  exists merged. split; [exact Hmerged |].
  split; [exact (Hf "x") | exact (Hf "y")].
Defined.

(** X6.  For a delta whose entity ids are no names of [Object.prototype],
    applying it a second time changes nothing more, except where it
    brought in a new entity with a [null] field: the first pass stores the
    [null], the second removes the field. *)
Theorem applyDeltaToEntities_twice (entities : gmap string (gmap string value))
    (delta : gmap string (option (gmap string value))) :
  JS.ordinary delta →
  applyDeltaToEntities (applyDeltaToEntities entities delta) delta
    = applyDeltaToEntities entities delta
  ↔ ∀ e changes f,
      delta !! e = Some (Some changes) → entities !! e = None →
      changes !! f ≠ Some VNull.
Proof.
  intros Hdelta. split.
  - intros Heq e changes f Hd He Hf.
    apply (f_equal (λ m, m !! e)) in Heq.
    rewrite !DeltaEngineFacts.applyDeltaToEntities_lookup_plain, Hd, He in Heq
      by done.
    injection Heq as Heq. apply (f_equal (λ m, m !! f)) in Heq.
    by rewrite DeltaEngineFacts.applyFieldChanges_lookup, Hf in Heq.
  - intros Hsafe. apply map_eq. intros e.
    rewrite !DeltaEngineFacts.applyDeltaToEntities_lookup_plain by done.
    destruct (delta !! e) as [[changes |] |] eqn:Hd; [| done | done].
    destruct (entities !! e) as [entity |] eqn:He; f_equal; apply map_eq; intros f;
      rewrite !DeltaEngineFacts.applyFieldChanges_lookup.
    + destruct (changes !! f) as [v |]; [| done].
      destruct (is_null v); [done |].
      destruct (entity !! f); [done |]. by destruct (String.eqb f "__proto__").
    + destruct (changes !! f) as [v |] eqn:Hf; [| done].
      destruct v; try done. by destruct (Hsafe e changes f).
Qed.

(** X6 for a delta that brings in [p1] without a [null] field. *)
Lemma applyDeltaToEntities_twice_witness :
  let entities : gmap string (gmap string value) := ∅ in
  let delta : gmap string (option (gmap string value)) :=
    {[ "p1" := Some {[ "x" := VNum 1 ]} ]} in
  JS.ordinary delta
  ∧ applyDeltaToEntities (applyDeltaToEntities entities delta) delta
    = applyDeltaToEntities entities delta.
Proof.
  intros entities delta.
  assert (Hdelta : JS.ordinary delta) by by_compute.
  split; [exact Hdelta |].
  apply (proj2 (applyDeltaToEntities_twice entities delta Hdelta)).
  intros e changes f Hd _ Hf.
  apply lookup_singleton_Some in Hd as [_ [= <-]].
  apply lookup_singleton_Some in Hf as [_ Hf]. discriminate Hf.
Defined.

(** X7.  [decodeDelta] reads the base64 text of an encoded delta as it
    reads the encoded bytes, and as [decodeDeltaFromBase64] reads it. *)
Theorem decodeDelta_reads_both_forms (msgpack_encode : FullDelta → list byte)
    (msgpack_decode : list byte → option FullDelta) (fd : FullDelta) :
  decodeDelta msgpack_decode (inr (encodeDeltaToBase64 msgpack_encode fd))
    = decodeDelta msgpack_decode (inl (encodeDelta msgpack_encode fd))
  ∧ decodeDelta msgpack_decode (inr (encodeDeltaToBase64 msgpack_encode fd))
    = decodeDeltaFromBase64 msgpack_decode (encodeDeltaToBase64 msgpack_encode fd).
Proof.
  split; [| done].
  unfold decodeDelta, encodeDeltaToBase64. cbv zeta.
  by rewrite BufferFacts.from_base64_toString_base64.
Qed.

(** Applying the diff against a clone rebuilds the target when no field of a
    kept entity becomes [null]. *)
Lemma apply_clone_diff (x y : gmap string (gmap string value)) :
  ordinary_names x → ordinary_names y →
  null_safe x y →
  applyDeltaToEntities x (computeEntityDelta (cloned_view x y) x y) = y.
Proof.
  intros [Hxi Hxf] [Hyi Hyf] Hsafe. apply map_eq. intros e.
  rewrite DeltaEngineFacts.applyDeltaToEntities_lookup_plain
    by (by apply DeltaEngineFacts.computeEntityDelta_ordinary).
  destruct (computeEntityDelta (cloned_view x y) x y !! e) as [entry |] eqn:Hentry.
  - rewrite DeltaEngineFacts.computeEntityDelta_lookup_plain in Hentry by done.
    destruct (y !! e) as [ne |] eqn:Hy, (x !! e) as [pe |] eqn:Hx;
      simplify_eq; try done.
    destruct (same_json (cloned_view x y) e); [done |].
    destruct (0 <? size (computeFieldDelta (cloned_view x y) e (JS.Plain pe) ne))%nat;
      [| done].
    injection Hentry as <-. f_equal.
    apply DeltaEngineFacts.applyFieldChanges_computeFieldDelta;
      [exact (Hxf e pe Hx) | exact (Hyf e ne Hy) | done |].
    intros f. by apply (Hsafe e).
  - by apply (clone_diff_None x y e).
Qed.



End DeltaEngineExtras.
(** * Further properties of the room state *)

Module RoomExtras.
Import Room.

(** X8.  Once a room has accepted a remote delta, it rejects every delta
    whose seq is not above that one (the same delta delivered again, or an
    older one) and stays as it is. *)
Theorem accepted_delta_shuts_out_older (config : Env.config) (now : Z)
    (r : RoomState) (fd : DeltaEngine.FullDelta) :
  (applyRemoteDelta config now r fd).2 = true →
  ∀ now' fd',
    DeltaEngine.seq fd' ≤ DeltaEngine.seq fd →
    applyRemoteDelta config now' (applyRemoteDelta config now r fd).1 fd'
    = ((applyRemoteDelta config now r fd).1, false).
Proof.
  intros Hacc now' fd' Hle.
  pose proof (RoomFacts.applyRemoteDelta_accept_state _ _ _ _ Hacc) as Hstate.
  apply (f_equal seq) in Hstate. cbn [seq] in Hstate.
  unfold applyRemoteDelta at 1.
  assert (DeltaEngine.shouldApplyRemoteDelta config fd'
            (seq (state (applyRemoteDelta config now r fd).1)) = false) as ->; [| done].
  apply RoomFacts.shouldApplyRemoteDelta_false. right. lia.
Qed.

(** X8 on instance A: a fresh room accepts [seq = 3] of instance B, then
    rejects the same delta. *)
Lemma accepted_delta_shuts_out_older_witness :
  let config := {| Env.instanceId := "A"; Env.snapshotInterval := 100 |} in
  let fd :=
    {| DeltaEngine.roomId := "r1";
       DeltaEngine.delta := {[ "p1" := Some {[ "x" := VNum 1 ]} ]};
       DeltaEngine.tick := 3; DeltaEngine.seq := 3; DeltaEngine.ts := 0;
       DeltaEngine.instanceId := "B" |} in
  let r := new "r1" None in
  (applyRemoteDelta config 0 r fd).2 = true
  ∧ applyRemoteDelta config 1 (applyRemoteDelta config 0 r fd).1 fd
    = ((applyRemoteDelta config 0 r fd).1, false).
Proof.
  intros config fd r.
  assert (Hacc : (applyRemoteDelta config 0 r fd).2 = true) by reflexivity.
  split; [exact Hacc |].
  apply (accepted_delta_shuts_out_older config 0 r fd Hacc 1 fd). lia.
Defined.


(** The three ways of [removeClient]: the socket carries no player id the
    room has an entity for; it carries one, and the removal is sent; it
    carries a name of [Object.prototype] that the room has no entity for,
    and [removeEntity] raises the counters for nothing. *)
Lemma removeClient_cases (config : Env.config) (now : Z) (r : RoomState)
    (socket : KasagiSocket) :
  let r0 := with_clients (clients r ∖ {[socketId socket]}) r in
  match socketPlayerId socket with
  | Some pid =>
      if negb (String.eqb pid "")
         && bool_decide (is_Some (JS.get pid (entities (state r))))
      then
        if bool_decide (is_Some (entities (state r) !! pid))
           && negb (JS.inherited pid)
        then
          removeClient config now r socket =
            publishDeltaToRedis config now
              (broadcastDelta now (removeEntity r0 pid).1 {[ pid := None ]})
              {[ pid := None ]}
        else removeClient config now r socket = (removeEntity r0 pid).1
      else removeClient config now r socket = r0
  | None => removeClient config now r socket = r0
  end.
Proof.
  cbv zeta. unfold removeClient. cbv zeta.
  destruct (socketPlayerId socket) as [pid |]; [| done].
  cbn [with_clients state].
  destruct (negb (String.eqb pid "")); cbn [andb]; [| done].
  case_bool_decide as Hkey; [| done].
  destruct (RoomFacts.removeEntity_deletes
              (with_clients (clients r ∖ {[socketId socket]}) r) pid Hkey)
    as [_ Hdelta].
  destruct (removeEntity (with_clients (clients r ∖ {[socketId socket]}) r) pid)
    as [r1 delta].
  cbn [fst snd with_clients state] in *. subst delta.
  destruct (bool_decide (is_Some (entities (state r) !! pid))
            && negb (JS.inherited pid)).
  - by rewrite RoomFacts.isDeltaEmpty_singleton.
  - done.
Qed.











(** What one call does to the counters, to the flag and to the fields no
    call writes. *)
Lemma step_keeps (config : Env.config) (r : RoomState) (call : Z * op) :
  seq (state r) ≤ seq (state (step config r call))
  ∧ tick (state r) ≤ tick (state (step config r call))
  ∧ roomId (step config r call) = roomId r
  ∧ lastSnapshotTick (step config r call) =
      match call.2 with
      | OpSnapshotSaved => tick (state r)
      | _ => lastSnapshotTick r
      end
  ∧ (isApplyingRemoteDelta r = false →
     isApplyingRemoteDelta (step config r call) = false).
Proof.
  destruct call as [now [socket | input | socket | fd |]]; cbn [step snd].
  - simpl. repeat split; try done; lia.
  - rewrite RoomFacts.applyInput_state. cbn [seq tick].
    split; [apply JSFacts.increment_le |]. split; [apply JSFacts.increment_le |].
    unfold applyInput. cbv zeta. cbn [fst].
    unfold maybeSnapshot, publishDeltaToRedis, broadcastDelta.
    repeat match goal with
           | |- context [if ?c then _ else _] => destruct c
           end; cbn; done.
  - pose proof (removeClient_cases config now r socket) as Hcase. cbv zeta in Hcase.
    set (r0 := with_clients (clients r ∖ {[socketId socket]}) r) in *.
    assert (Hsame : seq (state r) ≤ seq (state r0) ∧ tick (state r) ≤ tick (state r0)
                    ∧ roomId r0 = roomId r
                    ∧ lastSnapshotTick r0 = lastSnapshotTick r
                    ∧ (isApplyingRemoteDelta r = false →
                       isApplyingRemoteDelta r0 = false)).
    { subst r0. simpl. repeat split; try done; lia. }
    destruct (socketPlayerId socket) as [pid |]; [| by rewrite Hcase].
    destruct (negb (String.eqb pid "")); cbn [andb] in Hcase; [| by rewrite Hcase].
    case_bool_decide as Hkey; [| by rewrite Hcase].
    clear Hsame.
    destruct (RoomFacts.removeEntity_deletes r0 pid Hkey) as [Hstate _].
    destruct (RoomFacts.removeEntity_flag r0 pid) as (Hf & _ & Hroom & Hlast & _).
    pose proof (JSFacts.increment_le (seq (state r))) as Hseq.
    pose proof (JSFacts.increment_le (tick (state r))) as Htick.
    destruct (bool_decide (is_Some (entities (state r) !! pid))
              && negb (JS.inherited pid)); rewrite Hcase; clear Hcase.
    + unfold publishDeltaToRedis, broadcastDelta.
      rewrite RoomFacts.isDeltaEmpty_singleton.
      cbn [emit isApplyingRemoteDelta state].
      destruct (isApplyingRemoteDelta (removeEntity r0 pid).1) eqn:Hflag;
        cbn [emit state roomId lastSnapshotTick isApplyingRemoteDelta];
        rewrite ?Hstate, ?Hroom, ?Hlast, ?Hflag; subst r0; simpl;
        (split; [lia |]); (split; [lia |]); repeat split; try done.
      intros Hr. simpl in Hf. congruence.
    + rewrite Hstate, Hroom, Hlast, Hf. subst r0. simpl.
      (split; [lia |]); (split; [lia |]); repeat split; done.
  - destruct (applyRemoteDelta config now r fd).2 eqn:Hacc.
    + rewrite (RoomFacts.applyRemoteDelta_accept_state _ _ _ _ Hacc). cbn [seq tick].
      pose proof Hacc as Hok. rewrite RoomFacts.applyRemoteDelta_result in Hok.
      apply RoomFacts.shouldApplyRemoteDelta_true in Hok as [_ Hlt].
      split; [lia |]. split; [lia |].
      unfold applyRemoteDelta in *.
      destruct (DeltaEngine.shouldApplyRemoteDelta config fd (seq (state r)));
        [| done].
      cbn [negb fst]. unfold broadcastDelta.
      by destruct (DeltaEngine.isDeltaEmpty (DeltaEngine.delta fd)).
    + rewrite (RoomFacts.applyRemoteDelta_reject _ _ _ _ Hacc).
      repeat split; try done; lia.
  - simpl. repeat split; try done; lia.
Qed.

(** What a sequence of calls keeps. *)
Lemma run_invariants (config : Env.config) (calls : list (Z * op)) (r : RoomState) :
  seq (state r) ≤ seq (state (run config r calls))
  ∧ tick (state r) ≤ tick (state (run config r calls))
  ∧ roomId (run config r calls) = roomId r
  ∧ (isApplyingRemoteDelta r = false →
     isApplyingRemoteDelta (run config r calls) = false).
Proof.
  revert r. induction calls as [| call calls IH]; intros r.
  - cbn. repeat split; try done; lia.
  - cbn [run foldl]. fold (run config (step config r call) calls).
    destruct (IH (step config r call)) as (Hseq & Htick & Hroom & Hflag).
    destruct (step_keeps config r call) as (Hseq1 & Htick1 & Hroom1 & _ & Hflag1).
    split; [lia |]. split; [lia |]. split; [congruence |]. auto.
Qed.

(** X14.  Over every sequence of calls seq and tick never decrease, the
    room keeps its id, and a room that starts with the applying-remote
    flag cleared ends with it cleared. *)
Theorem run_keeps (config : Env.config) (calls : list (Z * op)) (r : RoomState) :
  seq (state r) ≤ seq (state (run config r calls))
  ∧ tick (state r) ≤ tick (state (run config r calls))
  ∧ roomId (run config r calls) = roomId r
  ∧ (isApplyingRemoteDelta r = false →
     isApplyingRemoteDelta (run config r calls) = false).
Proof. apply run_invariants. Qed.

(** X14 for a fresh room and one input. *)
Lemma run_keeps_witness :
  let config := {| Env.instanceId := "A"; Env.snapshotInterval := 100 |} in
  let input :=
    {| playerId := "p1"; payload := {[ "x" := VNum 10 ]}; timestamp := None |} in
  let r := new "r1" None in
  let calls := [(100, OpInput input); (101, OpRemoveClient
                  {| socketId := 1%nat; socketPlayerId := Some "p1" |})] in
  isApplyingRemoteDelta r = false
  ∧ seq (state r) ≤ seq (state (run config r calls))
  ∧ roomId (run config r calls) = "r1"
  ∧ isApplyingRemoteDelta (run config r calls) = false.
Proof.
  intros config input r calls.
  destruct (run_keeps config calls r) as (Hseq & _ & Hroom & Hflag).
  split; [reflexivity |]. split; [exact Hseq |]. split; [exact Hroom |].
  exact (Hflag eq_refl).
Defined.

Lemma deltas_sent_elem (e : effect) (log : list effect) :
  is_delta_effect e = true → e ∈ log → e ∈ deltas_sent log.
Proof.
  intros He Hin. apply list_elem_of_In. apply List.filter_In.
  split; [by apply list_elem_of_In | done].
Qed.

(** What one call publishes comes from a local call and carries the id of
    this instance and of this room. *)
Lemma step_publishes (config : Env.config) (r : RoomState) (call : Z * op)
    (fd : DeltaEngine.FullDelta) :
  Publish fd ∈ emitted config r [call] →
  DeltaEngine.instanceId fd = Env.instanceId config
  ∧ DeltaEngine.roomId fd = roomId r
  ∧ is_local call.2 = true.
Proof.
  intros Hin. pose proof (RoomFacts.emitted_step config r call) as Hem.
  assert (Hquiet : sent (step config r call) = sent r → False).
  { intros Heq. rewrite (RoomFacts.emitted_silent config r call Heq) in Hin.
    by apply elem_of_nil in Hin. }
  destruct call as [now [socket | input | socket | fd' |]];
    cbn [step snd is_local] in *.
  - by destruct Hquiet.
  - apply (deltas_sent_elem (Publish fd) _ eq_refl) in Hin.
    pose proof (RoomFacts.applyInput_sent config now r input) as Hsent.
    cbv zeta in Hsent. rewrite Hem, RoomFacts.deltas_sent_app in Hsent.
    apply app_inv_head in Hsent. rewrite Hsent in Hin.
    destruct (DeltaEngine.isDeltaEmpty _); [by apply elem_of_nil in Hin |].
    apply elem_of_cons in Hin as [? | Hin]; [done |].
    destruct (isApplyingRemoteDelta r); [by apply elem_of_nil in Hin |].
    apply list_elem_of_singleton in Hin. injection Hin as ->. done.
  - pose proof (removeClient_cases config now r socket) as Hcase. cbv zeta in Hcase.
    destruct (socketPlayerId socket) as [pid |];
      [| destruct Hquiet; by rewrite Hcase].
    destruct (negb (String.eqb pid "")
              && bool_decide (is_Some (JS.get pid (entities (state r)))));
      [| destruct Hquiet; by rewrite Hcase].
    set (r1 := (removeEntity (with_clients (clients r ∖ {[socketId socket]}) r) pid).1)
      in *.
    destruct (RoomFacts.removeEntity_flag
                (with_clients (clients r ∖ {[socketId socket]}) r) pid)
      as (_ & Hsent & Hroom & _).
    fold r1 in Hsent, Hroom. cbn [with_clients sent roomId] in Hsent, Hroom.
    destruct (bool_decide (is_Some (entities (state r) !! pid))
              && negb (JS.inherited pid));
      [| destruct Hquiet; by rewrite Hcase].
    clear Hquiet. rewrite Hcase in Hem. clear Hcase.
    unfold publishDeltaToRedis, broadcastDelta in Hem.
    rewrite RoomFacts.isDeltaEmpty_singleton in Hem.
    cbn [emit isApplyingRemoteDelta state] in Hem.
    destruct (isApplyingRemoteDelta r1); cbn [emit sent] in Hem;
      rewrite Hsent, <- ?app_assoc in Hem; apply app_inv_head in Hem;
      rewrite <- Hem in Hin.
    + apply list_elem_of_singleton in Hin. done.
    + apply elem_of_cons in Hin as [? | Hin]; [done |].
      apply list_elem_of_singleton in Hin. injection Hin as ->.
      cbn. by rewrite Hroom.
  - destruct (RoomFacts.applyRemoteDelta_log config now r fd')
      as (new & Hnew & _ & _ & Hp & _).
    cbv zeta in Hnew. rewrite Hnew in Hem. apply app_inv_head in Hem. subst new.
    assert (DeltaEngine.seq fd ∈ publish_seqs
              (emitted config r [(now, OpRemoteDelta fd')])) as Hseq.
    { apply list_elem_of_omap. by exists (Publish fd). }
    rewrite Hp in Hseq. by apply elem_of_nil in Hseq.
  - by destruct Hquiet.
Qed.

Lemma run_publishes (config : Env.config) (calls : list (Z * op)) (r : RoomState)
    (fd : DeltaEngine.FullDelta) :
  Publish fd ∈ emitted config r calls →
  DeltaEngine.instanceId fd = Env.instanceId config
  ∧ DeltaEngine.roomId fd = roomId r.
Proof.
  revert r. induction calls as [| call calls IH]; intros r.
  - rewrite RoomFacts.emitted_nil. by intros ?%elem_of_nil.
  - rewrite RoomFacts.emitted_cons. intros [Hin | Hin]%elem_of_app.
    + by destruct (step_publishes config r call fd Hin) as (? & ? & _).
    + destruct (IH _ Hin) as [? Hroom]. split; [done |].
      rewrite Hroom. by destruct (step_keeps config r call) as (_ & _ & ? & _).
Qed.

(** X15.  Whatever a room publishes, over any sequence of calls, carries
    the id of its own instance and of the room, and every room of that
    instance rejects it when it comes back from the coordinator. *)
Theorem own_deltas_are_rejected (config : Env.config) (calls : list (Z * op))
    (r : RoomState) (fd : DeltaEngine.FullDelta) :
  Publish fd ∈ emitted config r calls →
  DeltaEngine.instanceId fd = Env.instanceId config
  ∧ DeltaEngine.roomId fd = roomId r
  ∧ ∀ now r', applyRemoteDelta config now r' fd = (r', false).
Proof.
  intros Hin. destruct (run_publishes config calls r fd Hin) as [Hid Hroom].
  split; [done |]. split; [done |]. intros now r'. unfold applyRemoteDelta.
  assert (DeltaEngine.shouldApplyRemoteDelta config fd (seq (state r')) = false)
    as ->; [| done].
  apply RoomFacts.shouldApplyRemoteDelta_false. by left.
Qed.

(** X15 for the delta a fresh room publishes on its first input. *)
Lemma own_deltas_are_rejected_witness :
  let config := {| Env.instanceId := "A"; Env.snapshotInterval := 100 |} in
  let input :=
    {| playerId := "p1"; payload := {[ "x" := VNum 10 ]}; timestamp := None |} in
  let r := new "r1" None in
  let fd :=
    DeltaEngine.createDeltaPayload config 100 "r1"
      {[ "p1" := Some {[ "x" := VNum 10; "lastUpdate" := VNum 100 ]} ]} 1 1 in
  Publish fd ∈ emitted config r [(100, OpInput input)]
  ∧ applyRemoteDelta config 101 (run config r [(100, OpInput input)]) fd
    = (run config r [(100, OpInput input)], false).
Proof.
  intros config input r fd.
  assert (Hin : Publish fd ∈ emitted config r [(100, OpInput input)]).
  { apply list_elem_of_In.
    assert (Hlog : emitted config r [(100, OpInput input)]
                   = [Broadcast {| msgRoomId := "r1"; msgTick := 1; msgSeq := 1;
                                   msgDelta := DeltaEngine.delta fd;
                                   msgTimestamp := 100 |};
                      Publish fd]) by reflexivity.
    rewrite Hlog. right. left. reflexivity. }
  split; [exact Hin |].
  destruct (own_deltas_are_rejected config [(100, OpInput input)] r fd Hin)
    as (_ & _ & Hrej).
  apply Hrej.
Defined.





Lemma snapshot_requests_app (l1 l2 : list effect) :
  snapshot_requests (l1 ++ l2) = snapshot_requests l1 ++ snapshot_requests l2.
Proof. apply List.filter_app. Qed.

(** The snapshot request of one call: only [applyInput] makes one, when the
    tick it reaches is [snapshotInterval] or more past the last snapshot. *)
Lemma step_snapshot_requests (config : Env.config) (r : RoomState) (call : Z * op) :
  snapshot_requests (emitted config r [call]) =
    match call.2 with
    | OpInput _ =>
        if Env.snapshotInterval config
           <=? JS.subtract (JS.increment (tick (state r))) (lastSnapshotTick r)
        then [SaveSnapshot (entities (state (step config r call)))
                (JS.increment (seq (state r))) (JS.increment (tick (state r)))]
        else []
    | _ => []
    end.
Proof.
  pose proof (RoomFacts.emitted_step config r call) as Hem.
  apply (f_equal snapshot_requests) in Hem. rewrite snapshot_requests_app in Hem.
  apply (app_inv_head (snapshot_requests (sent r))). rewrite <- Hem. clear Hem.
  destruct call as [now [socket | input | socket | fd |]]; cbn [step snd].
  - cbn. by rewrite app_nil_r.
  - rewrite RoomFacts.applyInput_state. cbn [entities].
    unfold applyInput. cbv zeta. cbn [fst].
    unfold maybeSnapshot, publishDeltaToRedis, broadcastDelta.
    repeat match goal with
           | |- context [if negb ?c then _ else _] => destruct c; cbn [negb]
           | |- context [if isApplyingRemoteDelta ?c then _ else _] =>
               destruct (isApplyingRemoteDelta c) eqn:?
           | |- context [if DeltaEngine.isDeltaEmpty ?c then _ else _] =>
               destruct (DeltaEngine.isDeltaEmpty c) eqn:?
           end;
      cbn [emit state with_state with_previousState tick seq lastSnapshotTick
           entities sent isApplyingRemoteDelta];
      destruct (Env.snapshotInterval config
                <=? JS.subtract (JS.increment (tick (state r))) (lastSnapshotTick r));
      cbn; rewrite ?snapshot_requests_app; cbn; rewrite ?app_nil_r; try done;
      try congruence.
  - pose proof (removeClient_cases config now r socket) as Hcase. cbv zeta in Hcase.
    destruct (socketPlayerId socket) as [pid |]; [| rewrite Hcase; cbn; by rewrite app_nil_r].
    destruct (negb (String.eqb pid "")
              && bool_decide (is_Some (JS.get pid (entities (state r)))));
      [| rewrite Hcase; cbn; by rewrite app_nil_r].
    destruct (RoomFacts.removeEntity_flag
                (with_clients (clients r ∖ {[socketId socket]}) r) pid)
      as (_ & Hsent & _).
    destruct (bool_decide (is_Some (entities (state r) !! pid))
              && negb (JS.inherited pid)); rewrite Hcase.
    + unfold publishDeltaToRedis, broadcastDelta.
      rewrite RoomFacts.isDeltaEmpty_singleton. cbn [emit isApplyingRemoteDelta].
      match goal with
      | |- context [if ?c then _ else _] => destruct c
      end; cbn [emit sent]; rewrite Hsent, ?snapshot_requests_app; cbn;
        by rewrite ?app_nil_r.
    + rewrite Hsent. cbn. by rewrite app_nil_r.
  - destruct (RoomFacts.applyRemoteDelta_log config now r fd)
      as (new & Hnew & _ & _ & _ & Hb).
    cbv zeta in Hnew, Hb. rewrite Hnew, snapshot_requests_app. f_equal.
    unfold applyRemoteDelta in Hnew.
    destruct (DeltaEngine.shouldApplyRemoteDelta config fd (seq (state r)));
      cbn [negb fst] in Hnew.
    + unfold broadcastDelta in Hnew.
      destruct (DeltaEngine.isDeltaEmpty (DeltaEngine.delta fd)); cbn in Hnew.
      * rewrite <- (app_nil_r (sent r)) in Hnew at 1.
        by apply app_inv_head in Hnew as <-.
      * by apply app_inv_head in Hnew as <-.
    + rewrite <- (app_nil_r (sent r)) in Hnew at 1.
      by apply app_inv_head in Hnew as <-.
  - cbn. by rewrite app_nil_r.
Qed.

(** X17.  Only [applyInput] requests a snapshot: it does so when the tick
    it reaches is [snapshotInterval] or more past [lastSnapshotTick] (the
    tick and the difference as binary64 computes them), and the request
    carries the entities, seq and tick after the input; this for a call
    whose ids are no names of [Object.prototype].  Over a sequence of
    calls, the turns in which a snapshot has been saved among them, that
    starts with [lastSnapshotTick] not above the tick and ends less than
    [snapshotInterval] ticks past that [lastSnapshotTick], no snapshot is
    requested, for a [snapshotInterval] of [2^53] at most. *)
Theorem snapshot_cadence (config : Env.config) (r : RoomState)
    (calls : list (Z * op)) :
  (∀ call,
     ordinary_call call.2 = true →
     snapshot_requests (emitted config r [call]) =
       match call.2 with
       | OpInput _ =>
           if Env.snapshotInterval config
              <=? JS.subtract (JS.increment (tick (state r))) (lastSnapshotTick r)
           then [SaveSnapshot (entities (state (step config r call)))
                   (JS.increment (seq (state r))) (JS.increment (tick (state r)))]
           else []
       | _ => []
       end)
  ∧ (lastSnapshotTick r ≤ tick (state r) →
     Env.snapshotInterval config ≤ JS.limit →
     tick (state (run config r calls)) - lastSnapshotTick r
       < Env.snapshotInterval config →
     snapshot_requests (emitted config r calls) = []).
Proof.
  split; [intros call _; apply step_snapshot_requests |].
  intros Hlast Hint. revert r Hlast.
  induction calls as [| call calls IH]; intros r Hlast Hlt.
  - by rewrite RoomFacts.emitted_nil.
  - rewrite RoomFacts.emitted_cons, snapshot_requests_app.
    cbn [run foldl] in Hlt. fold (run config (step config r call) calls) in Hlt.
    destruct (step_keeps config r call) as (_ & Htick1 & _ & Hlast1 & _).
    destruct (run_invariants config calls (step config r call)) as (_ & Htick & _).
    assert (Hnext : lastSnapshotTick r ≤ lastSnapshotTick (step config r call)
                    ∧ lastSnapshotTick (step config r call)
                      ≤ tick (state (step config r call))).
    { rewrite Hlast1. destruct call.2; lia. }
    rewrite IH by lia. rewrite app_nil_r.
    rewrite step_snapshot_requests.
    destruct call as [now [socket | input | socket | fd |]]; cbn [snd]; try done.
    cbn [step] in Htick, Htick1, Hlt.
    rewrite RoomFacts.applyInput_state in Htick, Htick1.
    cbn [tick] in Htick, Htick1.
    rewrite JSFacts.subtract_exact by (unfold JS.exact; lia).
    destruct (Z.leb_spec (Env.snapshotInterval config)
                (JS.increment (tick (state r)) - lastSnapshotTick r)); [lia | done].
Qed.

(** X17 with [snapshotInterval = 3]: two inputs on a fresh room request
    nothing, the third requests a snapshot at [seq = 3, tick = 3], and once
    that snapshot is saved two more inputs request nothing. *)
Lemma snapshot_cadence_witness :
  let config := {| Env.instanceId := "A"; Env.snapshotInterval := 3 |} in
  let input v :=
    {| playerId := "p1"; payload := {[ "x" := VNum v ]}; timestamp := None |} in
  let calls := [(100, OpInput (input 1)); (101, OpInput (input 2))] in
  let later := [(103, OpSnapshotSaved); (104, OpInput (input 4));
                (105, OpInput (input 5))] in
  let r := run config (new "r1" None) (calls ++ [(102, OpInput (input 3))]) in
  tick (state (run config (new "r1" None) calls)) - 0 < 3
  ∧ snapshot_requests (emitted config (new "r1" None) calls) = []
  ∧ snapshot_requests
      (emitted config (run config (new "r1" None) calls) [(102, OpInput (input 3))])
    = [SaveSnapshot
         {[ "p1" := {[ "x" := VNum 3; "lastUpdate" := VNum 102 ]} ]} 3 3]
  ∧ snapshot_requests (emitted config (step config r (103, OpSnapshotSaved))
                         (tail later)) = [].
Proof.
  intros config input calls later r.
  assert (Hlt : tick (state (run config (new "r1" None) calls))
                - lastSnapshotTick (new "r1" None) < Env.snapshotInterval config)
    by (vm_compute; reflexivity).
  split; [exact Hlt |].
  split; [| split].
  - apply (proj2 (snapshot_cadence config (new "r1" None) calls));
      [vm_compute; discriminate | vm_compute; discriminate | exact Hlt].
  - rewrite (proj1 (snapshot_cadence config (run config (new "r1" None) calls) [])
               (102, OpInput (input 3)) eq_refl).
    vm_compute. reflexivity.
  - apply (proj2 (snapshot_cadence config (step config r (103, OpSnapshotSaved))
                    (tail later)));
      [vm_compute; discriminate | vm_compute; discriminate
      | vm_compute; reflexivity].
Defined.

End RoomExtras.
(** * Properties of the snapshots in the hash store *)

Module RedisExtras.
Import Redis.
Local Open Scope N_scope.

(** *** Decimal text *)

Lemma digit_value_digit_char (d : N) :
  d < 10 → digit_value (digit_char d) = Some d.
Proof.
  intros Hd. destruct d as [| p]; [done |].
  do 4 (try destruct p as [p | p |]); try lia; done.
Qed.

Lemma digits_rev_lt (fuel : nat) (n : N) :
  Forall (λ d, d < 10) (digits_rev fuel n).
Proof.
  revert n. induction fuel as [| fuel IH]; intros n; cbn [digits_rev]; [done |].
  destruct (n =? 0); [done |]. constructor; [| done].
  apply N.mod_lt. lia.
Qed.

Lemma digits_rev_value (fuel : nat) (n : N) :
  n < 2 ^ N.of_nat fuel →
  foldr (λ d acc, d + 10 * acc) 0 (digits_rev fuel n) = n.
Proof.
  revert n. induction fuel as [| fuel IH]; intros n Hn.
  - simpl in Hn. cbn. lia.
  - cbn [digits_rev]. destruct (N.eqb_spec n 0) as [-> | Hne]; [done |].
    cbn [foldr]. rewrite IH.
    + pose proof (N.div_mod n 10). lia.
    + rewrite Nat2N.inj_succ, N.pow_succ_r' in Hn.
      apply N.Div0.div_lt_upper_bound. lia.
Qed.

Lemma digits_rev_nonempty (fuel : nat) (n : N) :
  n ≠ 0 → digits_rev (S fuel) n ≠ [].
Proof. intros Hn. cbn [digits_rev]. by destruct (N.eqb_spec n 0). Qed.

Lemma foldl_digits_rev (l : list N) :
  foldl (λ acc d, acc * 10 + d) 0 (rev l) = foldr (λ d acc, d + 10 * acc) 0 l.
Proof.
  induction l as [| d l IH]; [done |].
  cbn [rev foldr]. rewrite foldl_app. cbn [foldl]. rewrite IH. lia.
Qed.

Lemma leading_digits_digits (ds : list N) :
  Forall (λ d, d < 10) ds →
  leading_digits (string_of_list_ascii (digit_char <$> ds)) = ds.
Proof.
  induction 1 as [| d ds Hd _ IH]; [done |].
  cbn [fmap list_fmap string_of_list_ascii leading_digits].
  rewrite digit_value_digit_char by done. by rewrite IH.
Qed.

(** [parseInt] on a text that starts with a digit, and on one that starts
    with a minus sign and a digit. *)
Lemma parseInt_digits (c : ascii) (rest : string) (d : N) :
  digit_value c = Some d →
  parseInt (String c rest)
    = Some (JS.round
              (Z.of_N (foldl (λ acc d, acc * 10 + d) 0
                         (leading_digits (String c rest)))))
  ∧ parseInt (String "-" (String c rest))
    = Some (JS.round
              (Z.opp (Z.of_N (foldl (λ acc d, acc * 10 + d) 0
                                (leading_digits (String c rest)))))).
Proof.
  intros Hc. unfold parseInt.
  assert (Hskip : skip_whitespace (String c rest) = String c rest
                  ∧ c ≠ "-"%char ∧ c ≠ "+"%char).
  { destruct c as [[] [] [] [] [] [] [] []]; try discriminate Hc; done. }
  destruct Hskip as (Hskip & Hminus & Hplus).
  assert (Hlead : leading_digits (String c rest) ≠ []).
  { cbn [leading_digits]. by rewrite Hc. }
  split.
  - rewrite Hskip.
    assert (match String c rest with
            | String "-" r => (true, r)
            | String "+" r => (false, r)
            | _ => (false, String c rest)
            end = (false, String c rest)) as ->.
    { destruct c as [[] [] [] [] [] [] [] []]; done. }
    by destruct (leading_digits (String c rest)).
  - cbn [skip_whitespace]. change (is_whitespace "-") with false. cbv iota.
    by destruct (leading_digits (String c rest)).
Qed.

Lemma parseInt_decimal (p : positive) :
  parseInt (decimal (Npos p)) = Some (JS.round (Zpos p))
  ∧ parseInt (String "-" (decimal (Npos p))) = Some (JS.round (Zneg p)).
Proof.
  unfold decimal. cbv beta iota.
  set (fuel := N.to_nat (N.log2 (N.pos p))).
  pose proof (digits_rev_lt (S fuel) (N.pos p)) as Hlt.
  pose proof (digits_rev_nonempty fuel (N.pos p) ltac:(done)) as Hne.
  assert (Hval : foldr (λ d acc, d + 10 * acc) 0 (digits_rev (S fuel) (N.pos p))
                 = N.pos p).
  { apply digits_rev_value. subst fuel.
    rewrite Nat2N.inj_succ, N2Nat.id. apply N.log2_spec. lia. }
  rewrite <- foldl_digits_rev in Hval.
  apply Forall_rev in Hlt.
  assert (Hne' : rev (digits_rev (S fuel) (N.pos p)) ≠ []).
  { intros Hnil. apply Hne. apply (f_equal (@rev N)) in Hnil.
    by rewrite rev_involutive in Hnil. }
  destruct (rev (digits_rev (S fuel) (N.pos p))) as [| d ds] eqn:Hds; [done |].
  pose proof (leading_digits_digits (d :: ds) Hlt) as Hlead.
  cbn [fmap list_fmap string_of_list_ascii] in *.
  destruct (parseInt_digits (digit_char d)
              (string_of_list_ascii (digit_char <$> ds)) d) as [H1 H2].
  { apply digit_value_digit_char. by inversion Hlt. }
  rewrite H1, H2, Hlead, Hval. done.
Qed.

(** Within [2^53], a number is read back from its decimal text. *)
Lemma parseInt_number_toString (z : Z) :
  JS.exact z → parseInt (number_toString z) = Some z.
Proof.
  intros Hz. pose proof (JSFacts.round_exact z Hz) as Hround.
  unfold JS.exact in Hz.
  destruct z as [| p | p]; [done | |]; cbn [number_toString]; unfold unsigned_toString.
  - assert ((Z.of_N (N.pos p) <=? JS.limit)%Z = true) as ->
      by (apply Z.leb_le; lia).
    rewrite (proj1 (parseInt_decimal p)). by rewrite Hround.
  - assert ((Z.of_N (N.pos p) <=? JS.limit)%Z = true) as ->
      by (apply Z.leb_le; lia).
    rewrite (proj2 (parseInt_decimal p)). by rewrite Hround.
Qed.

(** Beyond [2^53] the text is the shortest that reads back as the
    number, and from [10^21] on it is in exponent form, of which [parseInt]
    reads the digits before the point. *)
Example number_toString_beyond :
  number_toString (2 ^ 53 + 2) = "9007199254740994"%string
  ∧ number_toString (2 ^ 64) = "18446744073709552000"%string
  ∧ number_toString (10 ^ 21) = "1e+21"%string
  ∧ parseInt (number_toString (10 ^ 21)) = Some 1%Z
  ∧ number_toString (2 ^ 70) = "1.1805916207174113e+21"%string
  ∧ parseInt (number_toString (2 ^ 70)) = Some 1%Z.
Proof. repeat split; vm_compute; reflexivity. Qed.

(** *** The keys *)

Lemma length_append (a s : string) :
  String.length (String.append a s) = (String.length a + String.length s)%nat.
Proof.
  induction a as [| c a IH]; [done |].
  simpl. by rewrite IH.
Qed.

Lemma append_inv_tail (a b s : string) :
  String.append a s = String.append b s → a = b.
Proof.
  revert b. induction a as [| c a IH]; intros [| c' b] Heq; [done | | |].
  - apply (f_equal String.length) in Heq.
    rewrite !length_append in Heq. simpl in Heq. lia.
  - apply (f_equal String.length) in Heq.
    rewrite !length_append in Heq. simpl in Heq. lia.
  - simpl in Heq. injection Heq as -> Heq. f_equal. by apply IH.
Qed.

Lemma snapshotKey_inj (a b : string) : snapshotKey a = snapshotKey b → a = b.
Proof.
  unfold snapshotKey. intros Heq. apply (inj (String.app "room:")) in Heq.
  by apply append_inv_tail in Heq.
Qed.

Lemma snapshot_fields_lookup (config : Env.config) (now : Z) (old : gmap string string)
    (text : string) (s t : Z) :
  let fields : gmap string string :=
    {[ "data" := text; "seq" := number_toString s; "tick" := number_toString t;
       "timestamp" := number_toString now;
       "instanceId" := Env.instanceId config ]} ∪ old in
  fields !! "data" = Some text
  ∧ fields !! "seq" = Some (number_toString s)
  ∧ fields !! "tick" = Some (number_toString t)
  ∧ fields !! "timestamp" = Some (number_toString now).
Proof.
  cbv zeta. repeat split; apply lookup_union_Some_l; by simplify_map_eq.
Qed.

(** What [loadRoomSnapshot] reads after [saveRoomSnapshot]: the numbers go
    through their text. *)
Lemma load_saved (config : Env.config) (now : Z)
    (store : gmap string (gmap string string)) (roomId text : string) (s t : Z) :
  loadRoomSnapshot (saveRoomSnapshot config now store roomId text s t) roomId
  = if String.eqb text "" then None
    else Some {| data := text;
                 seq := parseInt (number_toString s);
                 tick := parseInt (number_toString t);
                 timestamp := parseInt (number_toString now) |}.
Proof.
  unfold loadRoomSnapshot, saveRoomSnapshot, hgetall, hset. cbv zeta.
  rewrite lookup_insert_eq.
  set (old := default ∅ (store !! snapshotKey roomId)).
  cbn [default from_option id].
  by destruct (snapshot_fields_lookup config now old text s t) as (-> & -> & -> & ->).
Qed.

(** X18.  [loadRoomSnapshot] after [saveRoomSnapshot] for the same room
    returns the data, seq, tick and time that were saved, whatever the
    store held for the room before, for a seq, a tick and a time within
    [2^53] (the numbers go through their decimal text); only a snapshot
    saved with empty data reads as no snapshot. *)
Theorem loadRoomSnapshot_saveRoomSnapshot (config : Env.config) (now : Z)
    (store : gmap string (gmap string string)) (roomId text : string) (s t : Z) :
  JS.exact s → JS.exact t → JS.exact now →
  loadRoomSnapshot (saveRoomSnapshot config now store roomId text s t) roomId
  = if String.eqb text "" then None
    else Some {| data := text; seq := Some s; tick := Some t;
                 timestamp := Some now |}.
Proof.
  intros Hs Ht Hnow. rewrite load_saved.
  by rewrite !parseInt_number_toString.
Qed.

(** X18 for a snapshot at [seq = 12, tick = 15] saved over an older one. *)
Lemma loadRoomSnapshot_saveRoomSnapshot_witness :
  let config := {| Env.instanceId := "A"; Env.snapshotInterval := 100 |} in
  let store := saveRoomSnapshot config 50 ∅ "r1" "{}" 7 7 in
  JS.exact 12 ∧ JS.exact 15 ∧ JS.exact 1700000000000
  ∧ loadRoomSnapshot
      (saveRoomSnapshot config 1700000000000 store "r1" "{}" 12 15) "r1"
    = Some {| data := "{}"; seq := Some 12%Z; tick := Some 15%Z;
              timestamp := Some 1700000000000%Z |}.
Proof.
  intros config store.
  assert (Hs : JS.exact 12) by by_compute.
  assert (Ht : JS.exact 15) by by_compute.
  assert (Hnow : JS.exact 1700000000000) by by_compute.
  split; [exact Hs |]. split; [exact Ht |]. split; [exact Hnow |].
  exact (loadRoomSnapshot_saveRoomSnapshot config 1700000000000 store "r1" "{}"
           12 15 Hs Ht Hnow).
Defined.

(** X19.  Saving or deleting the snapshot of one room leaves the snapshot
    of every other room as it was, and a deleted snapshot is not found. *)
Theorem snapshots_are_per_room (config : Env.config) (now : Z)
    (store : gmap string (gmap string string)) (a b text : string) (s t : Z) :
  (a ≠ b →
   loadRoomSnapshot (saveRoomSnapshot config now store a text s t) b
     = loadRoomSnapshot store b
   ∧ loadRoomSnapshot (deleteRoomSnapshot store a) b = loadRoomSnapshot store b)
  ∧ loadRoomSnapshot (deleteRoomSnapshot store a) a = None.
Proof.
  split.
  - intros Hab.
    assert (Hkey : snapshotKey a ≠ snapshotKey b) by (by intros ?%snapshotKey_inj).
    unfold loadRoomSnapshot, saveRoomSnapshot, deleteRoomSnapshot, hgetall, hset, del.
    cbv zeta. by rewrite lookup_insert_ne, lookup_delete_ne.
  - unfold loadRoomSnapshot, deleteRoomSnapshot, hgetall, del. cbv zeta.
    by rewrite lookup_delete_eq.
Qed.

(** X19 for the rooms [r1] and [r2]. *)
Lemma snapshots_are_per_room_witness :
  let config := {| Env.instanceId := "A"; Env.snapshotInterval := 100 |} in
  let store := saveRoomSnapshot config 50 ∅ "r2" "{}" 7 7 in
  loadRoomSnapshot (saveRoomSnapshot config 60 store "r1" "{}" 3 3) "r2"
  = Some {| data := "{}"; seq := Some 7%Z; tick := Some 7%Z;
            timestamp := Some 50%Z |}.
Proof.
  intros config store.
  destruct (snapshots_are_per_room config 60 store "r1" "r2" "{}" 3 3) as [Hother _].
  destruct Hother as [-> _]; [discriminate |]. reflexivity.
Defined.

End RedisExtras.

Module SnapshotExtras.
Import Snapshot.

(** X20.  A room restored by [loadSnapshot] from what [saveSnapshot] has
    stored is a new room with the seq and tick of the saved one, for a seq
    and a tick within [2^53], and with the entities that [JSON.parse] reads
    from the saved text (no room when it throws); it has no clients and
    its [lastSnapshotTick] is its tick.  In the room that was saved, what
    follows the [await] of [saveSnapshot] changes [lastSnapshotTick] only,
    to the tick the room has by then. *)
Theorem loadSnapshot_saveSnapshot
    (JSON_stringify : gmap string (gmap string value) → string)
    (JSON_parse : string → option (gmap string (gmap string value)))
    (config : Env.config) (now : Z) (store : gmap string (gmap string string))
    (r : Room.RoomState) :
  JS.exact (Room.seq (Room.state r)) → JS.exact (Room.tick (Room.state r)) →
  loadSnapshot JSON_parse (saveSnapshot JSON_stringify config now store r)
    (Room.roomId r) =
    match JSON_parse (snapshot_text JSON_stringify (Room.entities (Room.state r))) with
    | Some entities =>
        Restored
          (Room.new (Room.roomId r)
             (Some {| Room.entities := entities;
                      Room.tick := Room.tick (Room.state r);
                      Room.seq := Room.seq (Room.state r) |}))
    | None => NoSnapshot
    end
  ∧ ∀ later,
      Room.state (Room.snapshotSaved later) = Room.state later
      ∧ Room.clients (Room.snapshotSaved later) = Room.clients later
      ∧ Room.sent (Room.snapshotSaved later) = Room.sent later
      ∧ Room.lastSnapshotTick (Room.snapshotSaved later)
        = Room.tick (Room.state later).
Proof.
  intros Hseq Htick. split; [| done].
  unfold loadSnapshot, saveSnapshot. cbv zeta.
  rewrite RedisExtras.load_saved.
  assert (String.eqb (snapshot_text JSON_stringify (Room.entities (Room.state r))) ""
          = false) as -> by reflexivity.
  cbn [Redis.data Redis.tick Redis.seq].
  rewrite !RedisExtras.parseInt_number_toString by done.
  by destruct (JSON_parse _).
Qed.

(** X20 for the room [r1] without entities at [seq = 12, tick = 15], with
    [{}] for the text of its entities. *)
Lemma loadSnapshot_saveSnapshot_witness :
  let config := {| Env.instanceId := "A"; Env.snapshotInterval := 100 |} in
  let r := Room.new "r1" (Some {| Room.entities := ∅; Room.tick := 15;
                                  Room.seq := 12 |}) in
  let JSON_stringify (entities : gmap string (gmap string value)) := "{}" in
  let JSON_parse text :=
    if String.eqb text (snapshot_text JSON_stringify ∅)
    then Some (∅ : gmap string (gmap string value)) else None in
  JS.exact (Room.seq (Room.state r)) ∧ JS.exact (Room.tick (Room.state r))
  ∧ loadSnapshot JSON_parse (saveSnapshot JSON_stringify config 60 ∅ r) "r1"
    = Restored r.
Proof.
  intros config r JSON_stringify JSON_parse.
  assert (Hseq : JS.exact (Room.seq (Room.state r))) by by_compute.
  assert (Htick : JS.exact (Room.tick (Room.state r))) by by_compute.
  split; [exact Hseq |]. split; [exact Htick |].
  rewrite (proj1 (loadSnapshot_saveSnapshot JSON_stringify JSON_parse config 60 ∅ r
                    Hseq Htick)).
  reflexivity.
Defined.

End SnapshotExtras.

(** * Properties of the remote subscription *)

Module SubscriberExtras.
Import Subscriber.

Lemma span_colon_free (roomId tail : string) :
  colon_free roomId = true →
  span_not_colon (String.append roomId (String ":" tail)) = (roomId, String ":" tail).
Proof.
  induction roomId as [| c roomId IH]; intros Hfree; [done |].
  cbn [colon_free] in Hfree. apply andb_true_iff in Hfree as [Hc Hfree].
  change (String.append (String c roomId) (String ":" tail))
    with (String c (String.append roomId (String ":" tail))).
  cbn [span_not_colon]. apply negb_true_iff in Hc. rewrite Hc.
  by rewrite (IH Hfree).
Qed.

(** With a colon in the room id, what follows the group is longer than the
    suffix. *)
Lemma span_with_colon (roomId suffix : string) :
  colon_free roomId = false →
  (String.length suffix
   < String.length (span_not_colon (String.append roomId suffix)).2)%nat.
Proof.
  induction roomId as [| c roomId IH]; intros Hfree; [done |].
  cbn [colon_free] in Hfree.
  change (String.append (String c roomId) suffix)
    with (String c (String.append roomId suffix)).
  cbn [span_not_colon].
  destruct (Ascii.eqb c ":") eqn:Hc; cbn [negb andb] in Hfree.
  - cbn [snd]. simpl. rewrite RedisExtras.length_append. lia.
  - specialize (IH Hfree).
    by destruct (span_not_colon (String.append roomId suffix)).
Qed.

Lemma matchRoomChannel_roomChannel (roomId : string) :
  matchRoomChannel (Redis.roomChannel roomId)
  = if valid_room_id roomId then Some roomId else None.
Proof.
  unfold matchRoomChannel, Redis.roomChannel, valid_room_id.
  change (strip_prefix "room:" (String.append "room:" (String.append roomId ":channel")))
    with (Some (String.append roomId ":channel")).
  destruct (colon_free roomId) eqn:Hfree.
  - rewrite (span_colon_free roomId "channel" Hfree).
    destruct (String.eqb roomId ""); [done |]. cbn [negb andb].
    by rewrite String.eqb_refl.
  - rewrite andb_false_r.
    pose proof (span_with_colon roomId ":channel" Hfree) as Hlen.
    destruct (span_not_colon (String.append roomId ":channel")) as [word tail].
    cbn [snd] in Hlen. destruct (String.eqb word ""); [done |].
    destruct (String.eqb_spec tail ":channel") as [-> | _]; [| done].
    simpl in Hlen. lia.
Qed.

(** X21.  The channel pattern of the subscriber reads the room id back
    from the channel name [publishDelta] builds exactly when the room id is
    not empty and holds no colon; for any other room id the channel does
    not match. *)
Theorem channel_names_round_trip (roomId encoded : string) :
  matchRoomChannel (Redis.publishDelta roomId encoded).1
  = if valid_room_id roomId then Some roomId else None.
Proof. apply matchRoomChannel_roomChannel. Qed.

(** X22.  What a room publishes, over any sequence of calls, is dropped by
    the subscriber of the instance it comes from.  The subscriber of
    another instance routes it, to the room id of the publishing room and
    with the delta as published, when the MessagePack codec reads the delta
    back and the room id is not empty and holds no colon; the deltas of a
    room with any other id are dropped by every instance. *)
Theorem published_deltas_are_routed
    (msgpack_encode : DeltaEngine.FullDelta → list byte)
    (msgpack_decode : list byte → option DeltaEngine.FullDelta)
    (configA configB : Env.config) (calls : list (Z * Room.op))
    (r : Room.RoomState) (fd : DeltaEngine.FullDelta) :
  Room.Publish fd ∈ Room.emitted configA r calls →
  msgpack_decode (msgpack_encode fd) = Some fd →
  route msgpack_decode configB
    (published msgpack_encode fd).1 (published msgpack_encode fd).2
  = if String.eqb (Env.instanceId configA) (Env.instanceId configB) then None
    else if valid_room_id (Room.roomId r) then Some (Room.roomId r, fd)
    else None.
Proof.
  intros Hin Hcodec.
  destruct (RoomExtras.run_publishes configA calls r fd Hin) as [Hid Hroom].
  unfold route, published. cbn [fst snd Redis.publishDelta].
  rewrite DeltaEngineFacts.decodeDeltaFromBase64_encodeDeltaToBase64, Hcodec, Hid.
  destruct (String.eqb (Env.instanceId configA) (Env.instanceId configB)); [done |].
  rewrite matchRoomChannel_roomChannel, Hroom.
  destruct (valid_room_id (Room.roomId r)); [| done].
  by rewrite String.eqb_refl.
Qed.

(** X22 for the first input of a fresh room [r1] on instance A, read by
    instances A and B with the sample codec. *)
Lemma published_deltas_are_routed_witness :
  let configA := {| Env.instanceId := "A"; Env.snapshotInterval := 100 |} in
  let configB := {| Env.instanceId := "B"; Env.snapshotInterval := 100 |} in
  let input :=
    {| Room.playerId := "p1"; Room.payload := {[ "x" := VNum 10 ]};
       Room.timestamp := None |} in
  let fd :=
    DeltaEngine.createDeltaPayload configA 100 "r1"
      {[ "p1" := Some {[ "x" := VNum 10; "lastUpdate" := VNum 100 ]} ]} 1 1 in
  let wire := published MsgpackSample.encode fd in
  Room.Publish fd ∈ Room.emitted configA (Room.new "r1" None) [(100, Room.OpInput input)]
  ∧ MsgpackSample.decode (MsgpackSample.encode fd) = Some fd
  ∧ wire.1 = "room:r1:channel"
  ∧ route MsgpackSample.decode configA wire.1 wire.2 = None
  ∧ route MsgpackSample.decode configB wire.1 wire.2 = Some ("r1", fd).
Proof.
  intros configA configB input fd wire.
  assert (Hin : Room.Publish fd
                ∈ Room.emitted configA (Room.new "r1" None) [(100, Room.OpInput input)]).
  { apply list_elem_of_In. vm_compute. right. left. reflexivity. }
  assert (Hcodec : MsgpackSample.decode (MsgpackSample.encode fd) = Some fd)
    by by_compute.
  split; [exact Hin |]. split; [exact Hcodec |]. split; [reflexivity |].
  split.
  - exact (published_deltas_are_routed MsgpackSample.encode MsgpackSample.decode
             configA configA [(100, Room.OpInput input)] (Room.new "r1" None) fd
             Hin Hcodec).
  - exact (published_deltas_are_routed MsgpackSample.encode MsgpackSample.decode
             configA configB [(100, Room.OpInput input)] (Room.new "r1" None) fd
             Hin Hcodec).
Defined.

End SubscriberExtras.

(** * Properties of the input handler *)

Module WsServerExtras.
Import WsServer.

Lemma truthy_Some (s : option string) (t : string) :
  truthy s = Some t → s = Some t ∧ t ≠ "".
Proof.
  destruct s as [s |]; [| done]. cbn [truthy].
  destruct (String.eqb_spec s ""); [done |]. intros [= <-]. done.
Qed.

(** X23.  An input message whose player id is no name of
    [Object.prototype] changes no room but the one its socket has
    joined, and neither adds a room to the registry nor takes one from it.
    When it is answered with an error every room is as it was.  It is
    applied, with no answer, exactly when room id, player id and payload
    are present (the ids not empty), the room id is the one the socket has
    joined and the room is registered; that room then holds the result of
    [applyInput] on the room it held, with the seq that [seq++] gives (one
    more, up to [2^53]). *)
Theorem handleInput_spec (config : Env.config) (now : Z)
    (rooms : gmap string Room.RoomState) (socketRoomId : option string)
    (message : WsInputMessage) :
  (∀ player, playerId message = Some player → JS.inherited player = false) →
  let out := handleInput config now rooms socketRoomId message in
  (∀ other, socketRoomId ≠ Some other → out.1 !! other = rooms !! other)
  ∧ (∀ id, is_Some (out.1 !! id) ↔ is_Some (rooms !! id))
  ∧ match out.2 with
    | Some _ => out.1 = rooms
    | None =>
        ∃ id player fields room,
          roomId message = Some id ∧ id ≠ ""
          ∧ playerId message = Some player ∧ player ≠ ""
          ∧ payload message = Some fields
          ∧ socketRoomId = Some id
          ∧ rooms !! id = Some room
          ∧ out.1 !! id
            = Some (Room.applyInput config now room
                      {| Room.playerId := player; Room.payload := fields;
                         Room.timestamp := None |}).1
          ∧ (Room.seq ∘ Room.state <$> out.1 !! id)
            = Some (JS.increment (Room.seq (Room.state room)))
          ∧ (JS.exact (Room.seq (Room.state room) + 1) →
             (Room.seq ∘ Room.state <$> out.1 !! id)
             = Some (Room.seq (Room.state room) + 1))
    end
  ∧ (out.2 = None
     ↔ ∃ id, truthy (roomId message) = Some id
             ∧ is_Some (truthy (playerId message))
             ∧ is_Some (payload message)
             ∧ socketRoomId = Some id
             ∧ is_Some (rooms !! id)).
Proof.
  intros _. cbv zeta. unfold handleInput.
  destruct (truthy (roomId message)) as [id |] eqn:Hid;
    [| repeat split; try done; by intros (? & ? & _)].
  destruct (truthy (playerId message)) as [player |] eqn:Hplayer;
    [| repeat split; try done; by intros (? & _ & [? ?] & _)].
  destruct (payload message) as [fields |] eqn:Hfields;
    [| repeat split; try done; by intros (? & _ & _ & [? ?] & _)].
  case_bool_decide as Hsocket; cbn [negb];
    [| repeat split; try done; intros (? & [= <-] & _ & _ & ? & _); done].
  destruct (rooms !! id) as [room |] eqn:Hroom;
    [| repeat split; try done; intros (? & [= <-] & _ & _ & _ & [? ?]); congruence].
  cbn [fst snd]. split; [| split; [| split]].
  - intros other Hother. rewrite lookup_insert_ne; [done |]. congruence.
  - intros other. destruct (decide (id = other)) as [<- | Hne].
    + rewrite lookup_insert_eq, Hroom. split; eauto.
    + by rewrite lookup_insert_ne.
  - apply truthy_Some in Hid as [Hid ?]. apply truthy_Some in Hplayer as [Hplayer ?].
    exists id, player, fields, room. rewrite lookup_insert_eq.
    repeat (split; [done |]). cbn [fmap option_fmap option_map compose].
    rewrite RoomFacts.applyInput_state. cbn [Room.seq].
    split; [done |]. intros Hexact. by rewrite JSFacts.increment_exact.
  - split; [| done]. intros _. exists id. eauto 10.
Qed.

(** X23 for a registry with the fresh rooms [r1] and [r2] and a socket that
    has joined [r1]: its input for [r2] is refused, its input for [r1]
    leaves [r2] as it was. *)
Lemma handleInput_spec_witness :
  let config := {| Env.instanceId := "A"; Env.snapshotInterval := 100 |} in
  let rooms : gmap string Room.RoomState :=
    {[ "r1" := Room.new "r1" None; "r2" := Room.new "r2" None ]} in
  let message id :=
    {| roomId := Some id; playerId := Some "p1";
       payload := Some {[ "x" := VNum 10 ]} |} in
  (∀ player, playerId (message "r1") = Some player → JS.inherited player = false)
  ∧ Some "r1" ≠ Some "r2"
  ∧ (handleInput config 100 rooms (Some "r1") (message "r1")).1 !! "r2"
    = Some (Room.new "r2" None)
  ∧ handleInput config 100 rooms (Some "r1") (message "r2")
    = (rooms, Some (ErrorReply "WRONG_ROOM" "You are not in this room")).
Proof.
  intros config rooms message.
  assert (Hplayer : ∀ player, playerId (message "r1") = Some player →
                              JS.inherited player = false).
  { intros player Hp. injection Hp as <-. reflexivity. }
  assert (Hne : Some "r1" ≠ Some "r2") by discriminate.
  split; [exact Hplayer |]. split; [exact Hne |]. split; [| reflexivity].
  rewrite (proj1 (handleInput_spec config 100 rooms (Some "r1") (message "r1")
                    Hplayer) "r2" Hne).
  reflexivity.
Defined.

End WsServerExtras.
